(** * twirp-swagger-gen: the Schema Translator, embedded and verified

  A shallow embedding of [internal/swagger/writer.go] and
  [internal/swagger/compassiot.go].  Go strings are byte strings
  ([string] of 8-bit [ascii]); Go maps are [gmap]; a nil map or nil
  pointer is [None]; a run-time panic is an explicit outcome. *)

From Stdlib Require Import ZArith String Ascii List Bool Lia Sorted.
From Stdlib Require Import DecimalString DecimalPos DecimalZ.
From Stdlib Require Import Floats.SpecFloat.
From stdpp Require Import base option list strings gmap.

Local Open Scope string_scope.
Local Open Scope list_scope.
Local Open Scope Z_scope.

(** ** The Go standard library functions the translator calls *)

(** Package [unicode/utf8] and [unicode]: only what [strings.TrimSpace]
  needs. *)
Module utf8.

Definition byte (n : Z) : ascii := ascii_of_N (Z.to_N n).

(** UTF-8 encoding of a code point below U+10000. *)
Definition EncodeRune (r : Z) : string :=
  if r <? 128 then String (byte r) ""
  else if r <? 2048 then
    String (byte (192 + r / 64)) (String (byte (128 + r mod 64)) "")
  else
    String (byte (224 + r / 4096))
      (String (byte (128 + (r / 64) mod 64))
         (String (byte (128 + r mod 64)) "")).

(** [utf8.RuneSelf]: bytes below it are single-byte runes. *)
Definition RuneSelf : Z := 128.

Definition isSelf (c : ascii) : bool := Z.of_N (N_of_ascii c) <? RuneSelf.

End utf8.

Module unicode.

(** The runes for which [unicode.IsSpace] holds: the Latin-1 spaces
    and the code points with the White_Space property. *)
Definition White_Space : list Z :=
  [ 9; 10; 11; 12; 13; 32; 133; 160; 5760;
    8192; 8193; 8194; 8195; 8196; 8197; 8198; 8199; 8200; 8201; 8202;
    8232; 8233; 8239; 8287; 12288 ].

End unicode.

(** Package [strings]. *)
Module Strings.

Fixpoint HasPrefix (s prefix : string) {struct prefix} : bool :=
  match prefix, s with
  | EmptyString, _ => true
  | String p ps, String c cs => Ascii.eqb c p && HasPrefix cs ps
  | String _ _, EmptyString => false
  end.

(** [strings.Contains(s, substr)]. *)
Fixpoint Contains (s substr : string) : bool :=
  HasPrefix s substr ||
  match s with
  | EmptyString => false
  | String _ s' => Contains s' substr
  end.

(** [strings.Split(s, sep)] for a non-empty [sep] (the translator only
    splits on ";" and ","): [skip] counts the bytes of the separator
    occurrence still to be passed over. *)
Fixpoint splitFrom (sep : string) (skip : nat) (s : string) : list string :=
  match s with
  | EmptyString => [EmptyString]
  | String c s' =>
      match skip with
      | S k => splitFrom sep k s'
      | O =>
          if HasPrefix s sep
          then EmptyString :: splitFrom sep (String.length sep - 1) s'
          else match splitFrom sep 0 s' with
               | piece :: rest => String c piece :: rest
               | [] => [String c EmptyString]
               end
      end
  end.

Definition Split (s sep : string) : list string := splitFrom sep 0 s.

(** [strings.ReplaceAll(s, old, new)] for a non-empty [old]:
    non-overlapping occurrences, leftmost first. *)
Fixpoint replaceFrom (old new : string) (skip : nat) (s : string) : string :=
  match s with
  | EmptyString => EmptyString
  | String c s' =>
      match skip with
      | S k => replaceFrom old new k s'
      | O =>
          if HasPrefix s old
          then new +:+ replaceFrom old new (String.length old - 1) s'
          else String c (replaceFrom old new 0 s')
      end
  end.

Definition ReplaceAll (s old new : string) : string := replaceFrom old new 0 s.

(** [strings.Join(elems, sep)]. *)
Fixpoint Join (elems : list string) (sep : string) : string :=
  match elems with
  | [] => ""
  | [e] => e
  | e :: rest => e +:+ sep +:+ Join rest sep
  end.

Fixpoint dropPrefix (s prefix : string) {struct prefix} : option string :=
  match prefix, s with
  | EmptyString, _ => Some s
  | String p ps, String c cs =>
      if Ascii.eqb c p then dropPrefix cs ps else None
  | String _ _, EmptyString => None
  end.

(** One white-space rune taken off the front of [s], if it starts with
    one; [spaces] are the encodings to look for. *)
Fixpoint stripOne (spaces : list string) (s : string) : option string :=
  match spaces with
  | [] => None
  | w :: ws =>
      match dropPrefix s w with
      | Some rest => Some rest
      | None => stripOne ws s
      end
  end.

Fixpoint trimLeading (spaces : list string) (fuel : nat) (s : string) : string :=
  match fuel with
  | O => s
  | S fuel' =>
      match stripOne spaces s with
      | Some rest => trimLeading spaces fuel' rest
      | None => s
      end
  end.

Definition spaceRunes : list string := map utf8.EncodeRune unicode.White_Space.

Definition TrimLeftSpace (s : string) : string :=
  trimLeading spaceRunes (String.length s) s.

(** Trailing runes are found by reading the bytes backwards. *)
Definition TrimRightSpace (s : string) : string :=
  String.rev
    (trimLeading (map String.rev spaceRunes) (String.length s) (String.rev s)).

(** [strings.TrimSpace(s)]: leading and trailing white space, as
    defined by Unicode, removed. *)
Definition TrimSpace (s : string) : string := TrimRightSpace (TrimLeftSpace s).

(** [strings.HasSuffix(s, suffix)]. *)
Definition HasSuffix (s suffix : string) : bool :=
  HasPrefix (String.rev s) (String.rev suffix).

(** [strings.TrimSuffix(s, suffix)]. *)
Definition TrimSuffix (s suffix : string) : string :=
  match dropPrefix (String.rev s) (String.rev suffix) with
  | Some r => String.rev r
  | None => s
  end.

Definition isUpper (c : ascii) : bool :=
  let n := N_of_ascii c in (65 <=? n)%N && (n <=? 90)%N.

Definition lowerByte (c : ascii) : ascii :=
  if isUpper c then ascii_of_N (N_of_ascii c + 32) else c.

Fixpoint isASCII (s : string) : bool :=
  match s with
  | EmptyString => true
  | String c s' => utf8.isSelf c && isASCII s'
  end.

Fixpoint mapBytes (f : ascii -> ascii) (s : string) : string :=
  match s with
  | EmptyString => EmptyString
  | String c s' => String (f c) (mapBytes f s')
  end.

(** [strings.ToLower(s)]: byte-wise on an ASCII-only string, otherwise
    [strings.Map(unicode.ToLower, s)], which is the argument
    [mapUnicodeLower]. *)
Definition ToLower (mapUnicodeLower : string -> string) (s : string) : string :=
  if isASCII s then mapBytes lowerByte s else mapUnicodeLower s.

End Strings.

(** Package [strconv]. *)
Module strconv.

(** [strconv.Itoa(i)]. *)
Definition Itoa (i : Z) : string := NilZero.string_of_int (Z.to_int i).

Definition digit (c : ascii) : option Z :=
  let n := Z.of_N (N_of_ascii c) in
  if (48 <=? n) && (n <=? 57) then Some (n - 48) else None.

Fixpoint digits (acc : Z) (s : string) : option Z :=
  match s with
  | EmptyString => Some acc
  | String c s' =>
      match digit c with
      | Some d => digits (10 * acc + d) s'
      | None => None
      end
  end.

Definition signed (s : string) : bool * string :=
  match s with
  | String "+" r => (false, r)
  | String "-" r => (true, r)
  | _ => (false, s)
  end.

(** [strconv.Atoi(s)] with a 64-bit [int]: [None] stands for a
    non-nil error (syntax or range). *)
Definition Atoi (s : string) : option Z :=
  let '(neg, body) := signed s in
  match body with
  | EmptyString => None
  | _ =>
      match digits 0 body with
      | Some n =>
          let v := if neg then - n else n in
          if (- 2 ^ 63 <=? v) && (v <=? 2 ^ 63 - 1) then Some v else None
      | None => None
      end
  end.

(** *** [strconv.ParseFloat(s, 64)] *)

(** The binary64 number nearest to [num / den] (ties to even), for
    [0 <= num] and [0 < den]; [None] when it is out of range. *)
Definition round64 (neg : bool) (num den : Z) : option spec_float :=
  if num =? 0 then Some (S754_zero neg)
  else
    let l0 := Z.log2 num - Z.log2 den in
    let above :=
      if 0 <=? l0 then den * 2 ^ l0 <=? num else den <=? num * 2 ^ (- l0) in
    let lo := if above then l0 else l0 - 1 in
    let e := Z.max (-1074) (lo - 52) in
    let n' := if 0 <=? e then num else num * 2 ^ (- e) in
    let d' := if 0 <=? e then den * 2 ^ e else den in
    let m0 := n' / d' in
    let r := n' mod d' in
    let m := if (d' <? 2 * r) || ((d' =? 2 * r) && Z.odd m0) then m0 + 1 else m0 in
    let '(m, e) := if m =? 2 ^ 53 then (2 ^ 52, e + 1) else (m, e) in
    if m =? 0 then Some (S754_zero neg)
    else if 971 <? e then None
    else Some (S754_finite neg (Z.to_pos m) e).

(** The state of [readFloat] while it scans the mantissa. *)
Record scan := Scan {
  mantissa : Z;
  fraction : Z;          (* digits read after the point *)
  sawdot : bool;
  sawdigits : bool;
  underscores : bool
}.

Definition pushDigit (base d : Z) (st : scan) : scan :=
  {| mantissa := mantissa st * base + d;
     fraction := if sawdot st then fraction st + 1 else fraction st;
     sawdot := sawdot st;
     sawdigits := true;
     underscores := underscores st |}.

(** [lower(c)] of package strconv: [c | ('x' - 'X')]. *)
Definition lower (c : ascii) : ascii :=
  ascii_of_N (N.lor (N_of_ascii c) 32).

Definition hexLetter (c : ascii) : option Z :=
  let n := Z.of_N (N_of_ascii (lower c)) in
  if (97 <=? n) && (n <=? 102) then Some (n - 97 + 10) else None.

Fixpoint readMantissa (hex : bool) (st : scan) (s : string) : scan * string :=
  match s with
  | EmptyString => (st, s)
  | String c s' =>
      if Ascii.eqb c "_" then
        readMantissa hex
          {| mantissa := mantissa st; fraction := fraction st;
             sawdot := sawdot st; sawdigits := sawdigits st;
             underscores := true |} s'
      else if Ascii.eqb c "." then
        if sawdot st then (st, s)
        else readMantissa hex
               {| mantissa := mantissa st; fraction := fraction st;
                  sawdot := true; sawdigits := sawdigits st;
                  underscores := underscores st |} s'
      else
        match digit c with
        | Some d => readMantissa hex (pushDigit (if hex then 16 else 10) d st) s'
        | None =>
            match (if hex then hexLetter c else None) with
            | Some d => readMantissa hex (pushDigit 16 d st) s'
            | None => (st, s)
            end
        end
  end.

Fixpoint readExponent (e : Z) (us : bool) (s : string) : Z * bool * string :=
  match s with
  | EmptyString => (e, us, s)
  | String c s' =>
      if Ascii.eqb c "_" then readExponent e true s'
      else match digit c with
           | Some d => readExponent (if e <? 10000 then e * 10 + d else e) us s'
           | None => (e, us, s)
           end
  end.

Definition startsWithDigit (s : string) : bool :=
  match s with
  | String c _ => bool_decide (is_Some (digit c))
  | EmptyString => false
  end.

(** What [readFloat] returns when [ok]: sign, base, the exact mantissa,
    the exponent of the base (10, or 2 for a hexadecimal mantissa),
    whether an underscore occurred, and the unread rest. *)
Record floatLit := FloatLit {
  neg : bool; hex : bool; mant : Z; exp : Z; us : bool; rest : string
}.

Definition readFloat (s : string) : option floatLit :=
  match s with
  | EmptyString => None
  | _ =>
      let '(neg, s1) := signed s in
      let '(hex, s2) :=
        match s1 with
        | String "0" (String x (String c r)) =>
            if Ascii.eqb (lower x) "x" then (true, String c r) else (false, s1)
        | _ => (false, s1)
        end in
      let '(st, s3) := readMantissa hex (Scan 0 0 false false false) s2 in
      if negb (sawdigits st) then None
      else
        let scale := if hex then 4 * fraction st else fraction st in
        let expChar := if hex then "p"%char else "e"%char in
        match s3 with
        | String c s4 =>
            if Ascii.eqb (lower c) expChar then
              match s4 with
              | EmptyString => None
              | _ =>
                  let '(eneg, s5) := signed s4 in
                  if negb (startsWithDigit s5) then None
                  else
                    let '(e, us', s6) := readExponent 0 (underscores st) s5 in
                    Some (FloatLit neg hex (mantissa st)
                            ((if eneg then - e else e) - scale) us' s6)
              end
            else if hex then None
            else Some (FloatLit neg hex (mantissa st) (- scale) (underscores st) s3)
        | EmptyString =>
            if hex then None
            else Some (FloatLit neg hex (mantissa st) (- scale) (underscores st) s3)
        end
  end.

(** [underscoreOK(s)]: an underscore only between digits, or after a
    base prefix.  [saw] is the class of the last byte: ["^"] start,
    ["0"] digit, ["_"] underscore, ["!"] anything else. *)
Fixpoint underscoreScan (hex : bool) (saw : ascii) (s : string) : bool :=
  match s with
  | EmptyString => negb (Ascii.eqb saw "_")
  | String c s' =>
      if bool_decide (is_Some (digit c)) || (hex && bool_decide (is_Some (hexLetter c)))
      then underscoreScan hex "0" s'
      else if Ascii.eqb c "_" then
        if Ascii.eqb saw "0" then underscoreScan hex "_" s' else false
      else if Ascii.eqb saw "_" then false
      else underscoreScan hex "!" s'
  end.

Definition underscoreOK (s : string) : bool :=
  let '(_, s1) := signed s in
  match s1 with
  | String "0" (String x r) =>
      let l := lower x in
      if Ascii.eqb l "b" || Ascii.eqb l "o" || Ascii.eqb l "x"
      then underscoreScan (Ascii.eqb l "x") "0" r
      else underscoreScan false "^" s1
  | _ => underscoreScan false "^" s1
  end.

(** [special(s)], for a string it matches entirely: the infinities
    with an optional sign, and an unsigned NaN, in any case. *)
Definition special (s : string) : option spec_float :=
  let low := Strings.mapBytes Strings.lowerByte in
  if String.eqb (low s) "nan" then Some S754_nan
  else
    let '(neg, body) :=
      match s with
      | String "+" r => (false, r)
      | String "-" r => (true, r)
      | _ => (false, s)
      end in
    if String.eqb (low body) "inf" || String.eqb (low body) "infinity"
    then Some (S754_infinity neg)
    else None.

(** [strconv.ParseFloat(s, 64)]: [None] stands for a non-nil error,
    syntax or range.  The digits are read exactly (Go cuts a decimal
    mantissa after 800 digits). *)
Definition ParseFloat (s : string) : option spec_float :=
  match special s with
  | Some f => Some f
  | None =>
      match readFloat s with
      | Some l =>
          if negb (String.eqb (rest l) "") then None
          else if us l && negb (underscoreOK s) then None
          else
            let base := if hex l then 2 else 10 in
            if 0 <=? exp l then round64 (neg l) (mant l * base ^ exp l) 1
            else round64 (neg l) (mant l) (base ^ (- exp l))
      | None => None
      end
  end.

End strconv.

(** ** The declaration tree (package [github.com/emicklei/proto]) *)
Module proto.

(** [proto.Comment]; a documentation comment is a [*Comment], nil when
    there is none. *)
Record Comment := mkComment { Lines : list string }.

(** [proto.Field], embedded in every kind of field. *)
Record Field := mkField {
  FieldComment : option Comment;
  FieldName : string;
  FieldType : string
}.

(** [proto.Visitee]: the elements of a parsed file.  [Other] stands for
    the element kinds no handler of the translator looks at (syntax,
    option, reserved, extensions, group). *)
#[warnings="-register-all"]
Inductive Visitee :=
| Package (Name : string)
| Import (Filename : string)
| Message (Doc : option Comment) (Name : string) (Elements : list Visitee)
| Enum (Doc : option Comment) (Name : string) (Elements : list Visitee)
| EnumField (Name : string)
| Service (Doc : option Comment) (Name : string) (Elements : list Visitee)
| RPC (Doc : option Comment) (Name : string) (RequestType ReturnsType : string)
| Oneof (Name : string) (Elements : list Visitee)
| OneOfField (f : Field)
| MapField (f : Field) (KeyType : string)
| NormalField (f : Field) (Repeated : bool)
| CommentElement (c : Comment)
| Other.

(** [proto.Proto]: a parsed file. *)
Record Proto := mkProto { Elements : list Visitee }.

End proto.

(** ** The output document (package [github.com/go-openapi/spec]) *)
Module spec.

(** The dynamic values stored in [interface{}] slots: what [comment]
    returns as example. *)
Inductive Any :=
| AnyInt (n : Z)
| AnyFloat (f : spec_float)
| AnyString (s : string).

(** [Image] of compassiot.go, and the values of [spec.Extensions]. *)
Record Image := mkImage { Url : string; BackgroundColor : string; AltText : string }.

Inductive ExtValue :=
| ExtString (s : string)
| ExtImage (i : Image).

(** [spec.Schema], with the fields the translator sets.  [Ref] is the
    string given to [spec.MustCreateRef], empty when there is none;
    [Items] is [Items.Schema]. *)
#[warnings="-register-all"]
Inductive Schema := mkSchema {
  Title : string;
  Description : string;
  Type_ : list string;
  Format : string;
  Ref : string;
  Items : option Schema;
  AdditionalProperties : option SchemaOrBool;
  Properties : option (gmap string Schema);
  Enum : list string;
  Example : option Any;
  Extensions : option (gmap string ExtValue)
}
with SchemaOrBool := mkSchemaOrBool {
  Allows : bool;
  SchemaOf : option Schema
}.

(** The zero value [spec.Schema{}]. *)
Definition emptySchema : Schema :=
  mkSchema "" "" [] "" "" None None None [] None None.

(** [s.WithExample(example)]. *)
Definition WithExample (s : Schema) (example : Any) : Schema :=
  mkSchema (Title s) (Description s) (Type_ s) (Format s) (Ref s) (Items s)
    (AdditionalProperties s) (Properties s) (Enum s) (Some example) (Extensions s).

(** [spec.MustCreateRef(ref)].  The references the translator makes
    are "#/definitions/" and a type name; the names the parser yields
    (letters, digits, "_" and ".") make references that parse, so that
    the call does not panic; the reference is kept as the string. *)
Definition MustCreateRef (ref : string) : string := ref.

Record Response := mkResponse {
  ResponseDescription : string;
  ResponseSchema : option Schema
}.

Record Param := mkParam {
  ParamName : string;
  ParamIn : string;
  ParamRequired : bool;
  ParamSchema : option Schema
}.

Record Operation := mkOperation {
  ID : string;
  OperationTags : list string;
  Summary : string;
  StatusCodeResponses : gmap Z Response;
  Params : list Param
}.

Record PathItem := mkPathItem { Post : option Operation }.

(** [spec.Paths]: its map may be nil. *)
Record Paths := mkPaths { PathsOf : option (gmap string PathItem) }.

Record Tag := mkTag { TagName : string; TagDescription : string }.

Record SecurityScheme := mkSecurityScheme {
  SecurityDescription : string;
  SecurityType : string;
  Flow : string;
  TokenURL : string;
  Scopes : gmap string string
}.

Record Info := mkInfo {
  InfoTitle : string;
  InfoVersion : string;
  InfoDescription : string;
  InfoExtensions : gmap string ExtValue
}.

(** [spec.Swagger].  [Definitions] is a map, nil until made; [Paths] and
    [Info] are pointers, nil until set. *)
Record Swagger := mkSwagger {
  SwaggerVersion : string;
  Schemes : list string;
  Produces : list string;
  Consumes : list string;
  Host : string;
  Security : list (gmap string (list string));
  SecurityDefinitions : option (gmap string SecurityScheme);
  InfoOf : option Info;
  Definitions : option (gmap string Schema);
  PathsPtr : option Paths;
  Tags : list Tag
}.

(** The zero value [spec.Swagger{}]. *)
Definition emptySwagger : Swagger :=
  mkSwagger "" [] [] [] "" [] None None None None [].

End spec.

(** ** What the translator takes from its surroundings *)

(** An entry of the type mapping table [typeAliases]. *)
Record typeAlias := mkTypeAlias { AliasType : string; AliasFormat : string }.

(** The table [typeAliases] (declared in aliases.go), the file system with
    the IDL parser and the template engine, and the library functions on
    paths and URLs, on which the translator is parametric. *)
Record Env := mkEnv {
  (** [typeAliases]: IDL type name to output type and format. *)
  typeAliases : gmap string typeAlias;
  (** [strings.Map(unicode.ToLower, s)], for a string that is not ASCII. *)
  mapUnicodeLower : string -> string;
  (** [os.Open(name)] followed by [proto.NewParser(reader).Parse()]:
      the tree, or the text of the error. *)
  openAndParse : string -> proto.Proto + string;
  (** [os.ReadFile(name)], [None] on error. *)
  ReadFile : string -> option string;
  (** [template.New(label).Parse(text)] followed by [Execute] on the
      data: the filled text, or the text of the error. *)
  executeTemplate : string -> string -> gmap string string -> string + string;
  (** [filepath.Join], [filepath.Base], [filepath.Ext], [path.Join],
      [path.Base]. *)
  filepath_Join : list string -> string;
  filepath_Base : string -> string;
  filepath_Ext : string -> string;
  path_Join : list string -> string;
  path_Base : string -> string;
  (** [url.JoinPath(base, elem...)], its error dropped. *)
  url_JoinPath : string -> list string -> string;
  (** [json.MarshalIndent] of the document. *)
  MarshalIndent : spec.Swagger -> string
}.

(** Go's [error] values met by the translator: the package variable
    [ErrNoServiceDefinition], and the errors of loading and of
    templating, which are other values. *)
Inductive error :=
| ErrNoServiceDefinition
| LoadError (msg : string)
| TemplateError (msg : string).

(** How a call ends: it returns, it panics, or the bound on the depth of
    nested imports was too small to see it end. *)
Inductive Outcome (A : Type) :=
| Done (a : A)
| Panic (msg : string)
| OutOfFuel.

Arguments Done {A} a.
Arguments Panic {A} msg.
Arguments OutOfFuel {A}.

#[global] Instance Outcome_fmap : FMap Outcome := fun A B f o =>
  match o with
  | Done a => Done (f a)
  | Panic msg => Panic msg
  | OutOfFuel => OutOfFuel
  end.

#[global] Instance Outcome_ret : MRet Outcome := fun A a => Done a.

#[global] Instance Outcome_bind : MBind Outcome := fun A B k o =>
  match o with
  | Done a => k a
  | Panic msg => Panic msg
  | OutOfFuel => OutOfFuel
  end.

Definition nilMapAssignment : string := "assignment to entry in nil map".
Definition nilDereference : string := "invalid memory address or nil pointer dereference".

(** The line feed. *)
Definition LF : string := String "010"%char "".

(** ** The translator *)

(** [Writer]: the document and the configuration. *)
Record Writer := mkWriter {
  Swagger : spec.Swagger;
  filename : string;
  hostname : string;
  pathPrefix : string;
  packageName : string;
  version : string;
  sdkfiles : list string;
  protoDir : string;
  templateDir : string
}.

Definition setSwagger (sw : Writer) (doc : spec.Swagger) : Writer :=
  mkWriter doc (filename sw) (hostname sw) (pathPrefix sw) (packageName sw)
    (version sw) (sdkfiles sw) (protoDir sw) (templateDir sw).

Definition setPackageName (sw : Writer) (name : string) : Writer :=
  mkWriter (Swagger sw) (filename sw) (hostname sw) (pathPrefix sw) name
    (version sw) (sdkfiles sw) (protoDir sw) (templateDir sw).

Definition setDefinitions (doc : spec.Swagger) (defs : gmap string spec.Schema) : spec.Swagger :=
  spec.mkSwagger (spec.SwaggerVersion doc) (spec.Schemes doc) (spec.Produces doc)
    (spec.Consumes doc) (spec.Host doc) (spec.Security doc)
    (spec.SecurityDefinitions doc) (spec.InfoOf doc) (Some defs)
    (spec.PathsPtr doc) (spec.Tags doc).

Definition setPaths (doc : spec.Swagger) (paths : gmap string spec.PathItem) : spec.Swagger :=
  spec.mkSwagger (spec.SwaggerVersion doc) (spec.Schemes doc) (spec.Produces doc)
    (spec.Consumes doc) (spec.Host doc) (spec.Security doc)
    (spec.SecurityDefinitions doc) (spec.InfoOf doc) (spec.Definitions doc)
    (Some (spec.mkPaths (Some paths))) (spec.Tags doc).

Definition setTags (doc : spec.Swagger) (tags : list spec.Tag) : spec.Swagger :=
  spec.mkSwagger (spec.SwaggerVersion doc) (spec.Schemes doc) (spec.Produces doc)
    (spec.Consumes doc) (spec.Host doc) (spec.Security doc)
    (spec.SecurityDefinitions doc) (spec.InfoOf doc) (spec.Definitions doc)
    (spec.PathsPtr doc) tags.

(** [sw.Swagger.Definitions[name] = schema]. *)
Definition assignDefinition (sw : Writer) (name : string) (schema : spec.Schema)
  : Outcome Writer :=
  match spec.Definitions (Swagger sw) with
  | None => Panic nilMapAssignment
  | Some defs => Done (setSwagger sw (setDefinitions (Swagger sw) (<[name := schema]> defs)))
  end.

(** [sw.Swagger.Paths.Paths[name] = item]. *)
Definition assignPath (sw : Writer) (name : string) (item : spec.PathItem)
  : Outcome Writer :=
  match spec.PathsPtr (Swagger sw) with
  | None => Panic nilDereference
  | Some ps =>
      match spec.PathsOf ps with
      | None => Panic nilMapAssignment
      | Some paths => Done (setSwagger sw (setPaths (Swagger sw) (<[name := item]> paths)))
      end
  end.

(** [result[1:]]. *)
Definition from1 (s : string) : string :=
  match s with
  | EmptyString => EmptyString
  | String _ r => r
  end.

(** The loop of [comment]: the trimmed lines up to the first empty one,
    each put after a space. *)
Fixpoint commentText (result : string) (lines : list string) : string :=
  match lines with
  | [] => result
  | line :: rest =>
      let line := Strings.TrimSpace line in
      if String.eqb line "" then result
      else commentText (result +:+ " " +:+ line) rest
  end.

(** What [comment] makes of the segment after the first semicolon. *)
Definition exampleOf (example : string) : spec.Any :=
  match strconv.Atoi example with
  | Some n => spec.AnyInt n
  | None =>
      match strconv.ParseFloat example with
      | Some f => spec.AnyFloat f
      | None => spec.AnyString example
      end
  end.

(** [comment(comment)]: title and example. *)
Definition comment (comment : option proto.Comment) : string * spec.Any :=
  match comment with
  | None => ("", spec.AnyString "")
  | Some c =>
      let result := commentText "" (proto.Lines c) in
      if (1 <? String.length result)%nat then
        match Strings.Split (from1 result) ";" with
        | x0 :: x1 :: _ => (x0, exampleOf (Strings.TrimSpace x1))
        | x0 :: [] => (x0, spec.AnyString "")
        | [] => ("", spec.AnyString "")
        end
      else ("", spec.AnyString "")
  end.

(** The body of the loop of [description]. *)
Definition descriptionLine (line : string) : string :=
  let line := Strings.TrimSpace line in
  if Strings.Contains line ";" then
    match Strings.Split line ";" with
    | x0 :: _ => x0
    | [] => line
    end
  else line.

(** [description(comment)]. *)
Definition description (comment : option proto.Comment) : string :=
  match comment with
  | None => ""
  | Some c => Strings.Join (map descriptionLine (proto.Lines c)) LF
  end.

(** [example != ""] on an [interface{}]. *)
Definition notEmptyString (example : spec.Any) : bool :=
  match example with
  | spec.AnyString "" => false
  | _ => true
  end.

(** [allowedValues] of [Message]. *)
Definition allowedValues : list string :=
  ["boolean"; "integer"; "number"; "object"; "string"; "bytes"].

(** [find(haystack, needle)], its second result. *)
Fixpoint find (haystack : list string) (needle : string) : bool :=
  match haystack with
  | [] => false
  | v :: rest => if String.eqb v needle then true else find rest needle
  end.

(** What [addField] updates: [schemaProps] and [fieldOrder] of the
    enclosing [Message]. *)
Record fields := mkFields {
  schemaProps : gmap string spec.Schema;
  fieldOrder : list string
}.

(** [e.Add(key, value)] of [spec.Extensions]: the key is lower-cased. *)
Definition ExtensionsAdd (env : Env) (e : gmap string spec.ExtValue)
    (key : string) (value : spec.ExtValue) : gmap string spec.ExtValue :=
  <[Strings.ToLower (mapUnicodeLower env) key := value]> e.

(** The constants of compassiot.go. *)
Definition GCS_DOMAIN : string := "https://storage.googleapis.com".
Definition EXT_XLOGO_KEY : string := "x-logo".
Definition LOGO_FILENAME : string := "compass_logo.png".
Definition LOGO_ALTTEXT : string := "Compass IoT logo".
Definition PUBLIC_DOCS_BUCKET : string := "compass-public-docs".
Definition INTERNAL_DOCS_BUCKET : string := "compass-internal-docs".

Section Translator.

Context (env : Env).

(** *** compassiot.go *)

Definition makeGcsUrl (bucket : string) (args : list string) : string :=
  url_JoinPath env GCS_DOMAIN (bucket :: args).

Definition getLabel (file : string) : string :=
  Strings.TrimSuffix file (filepath_Ext env file).

Definition getTemplateFile (templateDir protoFile : string) : string :=
  let baseProto := filepath_Base env protoFile in
  let baseHtml := Strings.ReplaceAll baseProto "proto" "html" in
  filepath_Join env [templateDir; baseHtml].

Definition parseTemplate (templateFile : string) (data : gmap string string)
  : string * option error :=
  match ReadFile env templateFile with
  | None => ("", None)
  | Some templateString =>
      let label := getLabel templateFile in
      match executeTemplate env label templateString data with
      | inl executed => (executed, None)
      | inr msg => ("", Some (TemplateError msg))
      end
  end.

Definition sdkKey (f : string) : string :=
  let key := path_Base env f in
  let key := Strings.ReplaceAll key "." "" in
  let key := Strings.ReplaceAll key "_" "" in
  let key := Strings.ReplaceAll key "-" "" in
  Strings.TrimSpace key.

Definition mapSdkFiles (sw : Writer) : gmap string string :=
  let label := getLabel (filename sw) in
  fold_left
    (fun sdkfilesMap f =>
       <[sdkKey f := makeGcsUrl PUBLIC_DOCS_BUCKET [label; version sw; f]]> sdkfilesMap)
    (sdkfiles sw) ∅.

Definition MakeDescription (sw : Writer) : string :=
  let templateFile := getTemplateFile (templateDir sw) (filename sw) in
  match parseTemplate templateFile (mapSdkFiles sw) with
  | (_, Some _) => ""
  | (description, None) => description
  end.

Definition MakeLogo (sw : Writer) : gmap string spec.ExtValue :=
  let xlogo := spec.mkImage (makeGcsUrl PUBLIC_DOCS_BUCKET [LOGO_FILENAME]) "" "Compass IoT logo" in
  ExtensionsAdd env ∅ "x-logo" (spec.ExtImage xlogo).

(** *** writer.go *)

Definition NewWriter (filename hostname pathPrefix version sdkfiles protoDir templateDir : string)
  : Writer :=
  let pathPrefix := if String.eqb pathPrefix "" then "/twirp" else pathPrefix in
  mkWriter spec.emptySwagger filename hostname pathPrefix "" version
    (Strings.Split sdkfiles ",") protoDir templateDir.

Definition oauthDescription : string :=
  "Please use [client credentials](https://datatracker.ietf.org/doc/html/rfc6749#section-4.4) given to you by Compass IOT, please only use [basic auth](https://en.wikipedia.org/wiki/Basic_access_authentication) via the 'Authorization' header to obtain access tokens".

(** [sw.Package(pkg)]. *)
Definition Package (sw : Writer) (Name : string) : Writer :=
  let Produces := ["application/json"] in
  let oauth : gmap string (list string) := <["oauth" := []]> ∅ in
  let secDef : gmap string spec.SecurityScheme :=
    <["oauth" := spec.mkSecurityScheme oauthDescription "oauth2" "application"
                   (path_Join env [hostname sw; "auth"]) ∅]> ∅ in
  let info :=
    spec.mkInfo (filepath_Base env (filename sw)) (version sw)
      (MakeDescription sw) (MakeLogo sw) in
  let doc :=
    spec.mkSwagger "2.0" ["https"] Produces Produces (hostname sw) [oauth]
      (Some secDef) (Some info) (Some ∅) (Some (spec.mkPaths (Some ∅))) [] in
  setPackageName (setSwagger sw doc) Name.

(** [sw.loadProtoFile(filename)]. *)
Definition loadProtoFile (sw : Writer) (filename : string) : proto.Proto + string :=
  openAndParse env (filepath_Join env [protoDir sw; filename]).

(** [base] and [pathName] of [RPC]: the route of the RPC [Name] of the
    service [parentName]. *)
Definition base (parentName : string) : string :=
  Strings.ReplaceAll (Strings.ToLower (mapUnicodeLower env) parentName) "service" "".

Definition pathName (packageName parentName Name : string) : string :=
  "/" +:+ base parentName +:+ "/" +:+ packageName +:+ "." +:+ parentName +:+ "/" +:+ Name.

(** [sw.RPC(rpc)]; [parent] is [rpc.Parent], the element that encloses
    the RPC ([None] for the file itself). *)
Definition RPC (sw : Writer) (parent : option proto.Visitee)
    (Doc : option proto.Comment) (Name RequestType ReturnsType : string)
  : Outcome Writer :=
  match parent with
  | Some (proto.Service _ parentName _) =>
      let pathName := pathName (packageName sw) parentName Name in
      let summary := description Doc in
      let refTo (type : string) :=
        spec.mkSchema "" "" [] ""
          (spec.MustCreateRef ("#/definitions/" +:+ packageName sw +:+ "." +:+ type))
          None None None [] None None in
      assignPath sw pathName
        (spec.mkPathItem
           (Some (spec.mkOperation Name [parentName] summary
                    (<[200 := spec.mkResponse "A successful response."
                                (Some (refTo ReturnsType))]> ∅)
                    [spec.mkParam "body" "body" true (Some (refTo RequestType))])))
  | _ => Panic "parent is not proto.service"
  end.

(** The closure [addField] of [Message]. *)
Definition addField (packageName : string) (acc : fields) (field : proto.Field)
    (mapKeyType : string) (repeated : bool) (order : Z) : fields :=
  let '(fieldTitle, example) := comment (proto.FieldComment field) in
  let fieldDescription := description (proto.FieldComment field) in
  let fieldName := proto.FieldName field in
  let fieldType := proto.FieldType field in
  let fieldFormat := proto.FieldType field in
  let '(fieldType, fieldFormat) :=
    match typeAliases env !! fieldType with
    | Some p => (AliasType p, AliasFormat p)
    | None => (fieldType, fieldFormat)
    end in
  let fieldFormat := if String.eqb fieldType fieldFormat then "" else fieldFormat in
  let '(additionalProps, fieldType, fieldFormat) :=
    if negb (String.eqb mapKeyType "") then
      match typeAliases env !! mapKeyType with
      | Some p =>
          (Some (spec.mkSchemaOrBool false
                   (Some (spec.mkSchema "" "" [AliasType p] "" "" None None None [] None None))),
           "object", "")
      | None => (None, fieldType, fieldFormat)
      end
    else (None, fieldType, fieldFormat) in
  let fieldOrder := fieldOrder acc ++ [fieldName] in
  let ext := ExtensionsAdd env ∅ "x-order" (spec.ExtString (strconv.Itoa order)) in
  if find allowedValues fieldType then
    let fieldSchema :=
      spec.mkSchema fieldTitle fieldDescription [fieldType] fieldFormat ""
        None additionalProps None [] None None in
    if repeated then
      (* the array's items point at [fieldSchema], which is changed
         before and after the array is stored *)
      let fieldSchema :=
        spec.mkSchema "" "" (spec.Type_ fieldSchema) "" (spec.Ref fieldSchema)
          (spec.Items fieldSchema) (spec.AdditionalProperties fieldSchema)
          (spec.Properties fieldSchema) (spec.Enum fieldSchema)
          (spec.Example fieldSchema) (spec.Extensions fieldSchema) in
      let fieldSchema :=
        if notEmptyString example then spec.WithExample fieldSchema example
        else fieldSchema in
      mkFields
        (<[fieldName :=
             spec.mkSchema fieldTitle fieldDescription ["array"] fieldFormat ""
               (Some fieldSchema) None None [] None (Some ext)]> (schemaProps acc))
        fieldOrder
    else mkFields (<[fieldName := fieldSchema]> (schemaProps acc)) fieldOrder
  else
    (* Prefix rich type with package name *)
    let fieldType :=
      if negb (Strings.Contains fieldType ".") then packageName +:+ "." +:+ fieldType
      else fieldType in
    let ref := "#/definitions/" +:+ fieldType in
    if repeated then
      let fieldSchema :=
        spec.mkSchema fieldTitle fieldDescription ["array"] "" ""
          (Some (spec.mkSchema "" "" [] "" (spec.MustCreateRef ref)
                   None None None [] None None))
          None None [] None (Some ext) in
      let fieldSchema :=
        if notEmptyString example then spec.WithExample fieldSchema example
        else fieldSchema in
      mkFields (<[fieldName := fieldSchema]> (schemaProps acc)) fieldOrder
    else
      let fieldSchema :=
        spec.mkSchema fieldTitle fieldDescription [] "" (spec.MustCreateRef ref)
          None None None [] None (Some ext) in
      let fieldSchema :=
        if notEmptyString example then spec.WithExample fieldSchema example
        else fieldSchema in
      mkFields (<[fieldName := fieldSchema]> (schemaProps acc)) fieldOrder.

(** The first loop of [Message]: the elements of every one-of are
    appended to [allFields], which starts as [msg.Elements]. *)
Definition unpackOneofs (Elements : list proto.Visitee) : list proto.Visitee :=
  fold_left
    (fun allFields element =>
       match element with
       | proto.Oneof _ oneofElements => allFields ++ oneofElements
       | _ => allFields
       end)
    Elements Elements.

(** The second loop of [Message], from index [i] on. *)
Fixpoint addFields (packageName : string) (i : Z) (allFields : list proto.Visitee)
    (acc : fields) : fields :=
  match allFields with
  | [] => acc
  | element :: rest =>
      let acc :=
        match element with
        | proto.OneOfField f => addField packageName acc f "" false i
        | proto.MapField f KeyType => addField packageName acc f KeyType false i
        | proto.NormalField f Repeated => addField packageName acc f "" Repeated i
        | _ => acc
        end in
      addFields packageName (i + 1) rest acc
  end.

(** [schemaProps] and [fieldOrder] after the two loops of [Message]. *)
Definition messageFields (packageName : string) (Elements : list proto.Visitee) : fields :=
  let allFields := unpackOneofs Elements in
  addFields packageName 0 allFields (mkFields ∅ []).

(** The definition [Message] stores for a message. *)
Definition messageSchema (packageName : string) (Doc : option proto.Comment)
    (Elements : list proto.Visitee) : spec.Schema :=
  let acc := messageFields packageName Elements in
  let schemaDesc := description Doc in
  let schemaDesc :=
    if (0 <? length (fieldOrder acc))%nat
    then schemaDesc +:+ LF +:+ LF +:+ "Fields: " +:+ Strings.Join (fieldOrder acc) ", "
    else schemaDesc in
  let '(title, _) := comment Doc in
  spec.mkSchema title (Strings.TrimSpace schemaDesc) ["object"] "" "" None None
    (Some (schemaProps acc)) [] None None.

(** [sw.Message(msg)]. *)
Definition Message (sw : Writer) (Doc : option proto.Comment) (Name : string)
    (Elements : list proto.Visitee) : Outcome Writer :=
  let definitionName := packageName sw +:+ "." +:+ Name in
  assignDefinition sw definitionName (messageSchema (packageName sw) Doc Elements).

(** The loop of [Enum]. *)
Fixpoint enumValues (Elements : list proto.Visitee) : list string :=
  match Elements with
  | [] => []
  | proto.EnumField Name :: rest => Name :: enumValues rest
  | _ :: rest => enumValues rest
  end.

(** [sw.Enum(msg)]. *)
Definition Enum (sw : Writer) (Doc : option proto.Comment) (Name : string)
    (Elements : list proto.Visitee) : Outcome Writer :=
  let definitionName := packageName sw +:+ "." +:+ Name in
  let '(title, _) := comment Doc in
  let fieldSchema :=
    spec.mkSchema title (description Doc) ["string"] "" "" None None None
      (enumValues Elements) None None in
  assignDefinition sw definitionName fieldSchema.

(** [sw.Service(srv)]. *)
Definition Service (sw : Writer) (Doc : option proto.Comment) (Name : string) : Writer :=
  let exists_ :=
    fold_left
      (fun exists_ tag => if String.eqb (spec.TagName tag) Name then true else exists_)
      (spec.Tags (Swagger sw)) false in
  if negb exists_ then
    let summary := description Doc in
    setSwagger sw (setTags (Swagger sw) (spec.Tags (Swagger sw) ++ [spec.mkTag Name summary]))
  else sw.

(** *** Walking a file *)

(** The handlers given to [proto.Walk], as one function of the element
    and of the element that encloses it. *)
Definition Handler : Type := option proto.Visitee -> proto.Visitee -> Writer -> Outcome Writer.

(** One turn of the loop of [walk] of package proto: the element is
    given to the handlers, then the elements it contains are walked. *)
Fixpoint visit (handle : Handler) (parent : option proto.Visitee)
    (element : proto.Visitee) (sw : Writer) {struct element} : Outcome Writer :=
  sw ← handle parent element sw;
  match element with
  | proto.Message _ _ inner
  | proto.Enum _ _ inner
  | proto.Service _ _ inner
  | proto.Oneof _ inner =>
      (fix walk (elements : list proto.Visitee) (sw : Writer) : Outcome Writer :=
         match elements with
         | [] => Done sw
         | e :: rest => sw ← visit handle (Some element) e sw; walk rest sw
         end) inner sw
  | _ => Done sw
  end.

(** [walk(container, handlers...)]: the elements of the container
    [parent], in order. *)
Fixpoint walk (handle : Handler) (parent : option proto.Visitee)
    (elements : list proto.Visitee) (sw : Writer) : Outcome Writer :=
  match elements with
  | [] => Done sw
  | element :: rest =>
      sw ← visit handle parent element sw;
      walk handle parent rest sw
  end.

(** The three import paths [Import] leaves alone. *)
Definition excluded (Filename : string) : bool :=
  Strings.Contains Filename "google/api/annotations.proto"
  || Strings.Contains Filename "google/protobuf/timestamp.proto"
  || Strings.Contains Filename "google/protobuf/wrappers.proto".

(** The handlers [Import] walks an imported file with; [import] is
    [sw.Import]. *)
Definition importHandlers (import : Writer -> string -> Outcome Writer) : Handler :=
  fun parent element sw =>
    match element with
    | proto.Package Name => Done (setPackageName sw Name)
    | proto.Import Filename => import sw Filename
    | proto.Message Doc Name Elements => Message sw Doc Name Elements
    | proto.Enum Doc Name Elements => Enum sw Doc Name Elements
    | _ => Done sw
    end.

(** [sw.Import(i)]; [fuel] bounds the depth of the imports followed. *)
Fixpoint Import (fuel : nat) (sw : Writer) (Filename : string) : Outcome Writer :=
  if excluded Filename then Done sw
  else
    match loadProtoFile sw Filename with
    | inr err => Done sw
    | inl definition =>
        match fuel with
        | O => OutOfFuel
        | S fuel =>
            let oldPackageName := packageName sw in
            sw ← walk (importHandlers (Import fuel)) None (proto.Elements definition) sw;
            Done (setPackageName sw oldPackageName)
        end
    end.

(** [sw.Handlers()]. *)
Definition Handlers (fuel : nat) : Handler :=
  fun parent element sw =>
    match element with
    | proto.Package Name => Done (Package sw Name)
    | proto.RPC Doc Name RequestType ReturnsType =>
        RPC sw parent Doc Name RequestType ReturnsType
    | proto.Message Doc Name Elements => Message sw Doc Name Elements
    | proto.Enum Doc Name Elements => Enum sw Doc Name Elements
    | proto.Service Doc Name _ => Done (Service sw Doc Name)
    | proto.Import Filename => Import fuel sw Filename
    | _ => Done sw
    end.

(** [sw.Get()]. *)
Definition Get (sw : Writer) : string := MarshalIndent env (Swagger sw).

(** [len(sw.Swagger.Paths.Paths)]. *)
Definition countPaths (sw : Writer) : Outcome nat :=
  match spec.PathsPtr (Swagger sw) with
  | None => Panic nilDereference
  | Some ps =>
      match spec.PathsOf ps with
      | None => Done 0%nat
      | Some paths => Done (size paths)
      end
  end.

(** [sw.WalkFile()]: the writer after the call, and the error returned. *)
Definition WalkFile (fuel : nat) (sw : Writer) : Outcome (Writer * option error) :=
  match loadProtoFile sw (filename sw) with
  | inr err => Done (sw, Some (LoadError err))
  | inl definition =>
      sw ← walk (Handlers fuel) None (proto.Elements definition) sw;
      n ← countPaths sw;
      if (n =? 0)%nat then Done (sw, Some ErrNoServiceDefinition)
      else Done (sw, None)
  end.

End Translator.

(** ** A concrete environment, for the closed examples *)
Module Sample.

(** Modelled from the spec: the Type Mapping Table of section 4.1 ("a fixed
    mapping from IDL scalar/well-known type name to output type and
    format", with the well-known types pre-seeded); aliases.go, which
    declares [typeAliases], is not among the sources.  Four entries of
    that kind. *)
Definition aliases : gmap string typeAlias :=
  <["string" := mkTypeAlias "string" ""]>
  (<["int32" := mkTypeAlias "integer" "int32"]>
  (<["bool" := mkTypeAlias "boolean" ""]>
  (<["google.protobuf.Timestamp" := mkTypeAlias "string" "date-time"]> ∅))).

Definition comment1 (line : string) : option proto.Comment :=
  Some (proto.mkComment [line]).

(** orders.proto: a package, a message and a service with one RPC. *)
Definition orders_proto : proto.Proto :=
  proto.mkProto
    [ proto.Package "orders";
      proto.Message None "Order"
        [ proto.NormalField (proto.mkField (comment1 " Id; 42") "id" "int32") false ];
      proto.Service None "OrderService"
        [ proto.RPC None "GetOrder" "Order" "Order" ] ].

(** empty_service.proto: a package and a service without RPCs. *)
Definition empty_service_proto : proto.Proto :=
  proto.mkProto [ proto.Package "orders"; proto.Service None "OrderService" [] ].

(** bare_service.proto: a service without RPCs, and no package. *)
Definition bare_service_proto : proto.Proto :=
  proto.mkProto [ proto.Service None "OrderService" [] ].

(** message Shipment { Address to = 1; oneof carrier { Courier courier = 2; } } *)
Definition shipment_elements : list proto.Visitee :=
  [ proto.NormalField (proto.mkField None "to" "Address") false;
    proto.Oneof "carrier" [ proto.OneOfField (proto.mkField None "courier" "Courier") ] ].

(** message Parcel { oneof carrier { Courier courier = 1; } Address to = 2; } *)
Definition parcel_elements : list proto.Visitee :=
  [ proto.Oneof "carrier" [ proto.OneOfField (proto.mkField None "courier" "Courier") ];
    proto.NormalField (proto.mkField None "to" "Address") false ].

(** // Labels; fragile
    repeated Label labels = 3; *)
Definition labels_field : proto.Field :=
  proto.mkField (comment1 " Labels; fragile") "labels" "Label".

(** map<string, int32> counts = 4; *)
Definition counts_field : proto.Field := proto.mkField None "counts" "int32".

(** A file system with these three files and no other. *)
Definition files (name : string) : proto.Proto + string :=
  if String.eqb name "orders.proto" then inl orders_proto
  else if String.eqb name "empty_service.proto" then inl empty_service_proto
  else if String.eqb name "bare_service.proto" then inl bare_service_proto
  else inr ("open " +:+ name +:+ ": no such file or directory").

(** The path functions, as they act on plain relative names. *)
Definition joinPath (elem : list string) : string :=
  Strings.Join (filter (fun e => e ≠ "") elem) "/".

Definition base (name : string) : string :=
  List.last (Strings.Split name "/") name.

Definition ext (name : string) : string :=
  match Strings.Split (base name) "." with
  | _ :: _ :: _ as parts => "." +:+ List.last parts ""
  | _ => ""
  end.

Definition env : Env :=
  {| typeAliases := aliases;
     mapUnicodeLower := fun s => s;
     openAndParse := files;
     ReadFile := fun _ => None;
     executeTemplate := fun _ text _ => inl text;
     filepath_Join := joinPath;
     filepath_Base := base;
     filepath_Ext := ext;
     path_Join := joinPath;
     path_Base := base;
     url_JoinPath := fun b elem => joinPath (b :: elem);
     MarshalIndent := fun _ => "" |}.

End Sample.

(** ** The vocabulary of the statements *)

(** The lines [comment] reads: the trimmed lines before the first line
    that is blank. *)
Fixpoint leadingLines (lines : list string) : list string :=
  match lines with
  | [] => []
  | line :: rest =>
      if String.eqb (Strings.TrimSpace line) "" then []
      else Strings.TrimSpace line :: leadingLines rest
  end.

(** The first non-blank text of a comment: its leading lines, joined by
    single spaces. *)
Definition leadingText (lines : list string) : string :=
  Strings.Join (leadingLines lines) " ".

(** The field an element of a message declares, with the arguments
    [Message] gives to [addField] for it. *)
Definition fieldOf (element : proto.Visitee) : option (proto.Field * string * bool) :=
  match element with
  | proto.OneOfField f => Some (f, "", false)
  | proto.MapField f KeyType => Some (f, KeyType, false)
  | proto.NormalField f Repeated => Some (f, "", Repeated)
  | _ => None
  end.

Definition fieldNameOf (element : proto.Visitee) : option string :=
  match fieldOf element with
  | Some (f, _, _) => Some (proto.FieldName f)
  | None => None
  end.

Definition fieldNames (elements : list proto.Visitee) : list string :=
  omap fieldNameOf elements.

(** The members of a one-of block. *)
Definition oneofMembers (element : proto.Visitee) : list proto.Visitee :=
  match element with
  | proto.Oneof _ members => members
  | _ => []
  end.

(** The field list as the specification describes it: declaration
    order, the members of a one-of at the place of its block. *)
Definition declarationOrder (Elements : list proto.Visitee) : list string :=
  flat_map
    (fun element =>
       match element with
       | proto.Oneof _ members => fieldNames members
       | _ => fieldNames [element]
       end)
    Elements.

(** The field list as [Message] builds it: the fields among the
    elements, then the members of the one-of blocks. *)
Definition appendedOrder (Elements : list proto.Visitee) : list string :=
  fieldNames Elements ++ fieldNames (flat_map oneofMembers Elements).

(** The [x-order] extension of a schema. *)
Definition xOrder (s : spec.Schema) : option spec.ExtValue :=
  match spec.Extensions s with
  | Some e => e !! "x-order"
  | None => None
  end.

(** The extensions that hold [x-order] alone, with the value [order]. *)
Definition orderExtension (order : Z) : gmap string spec.ExtValue :=
  {[ "x-order" := spec.ExtString (strconv.Itoa order) ]}.


(** The example a schema carries for a comment: none when [comment]
    yields the empty string. *)
Definition exampleIfAny (Doc : option proto.Comment) : option spec.Any :=
  if notEmptyString (comment Doc).2 then Some (comment Doc).2 else None.

(** A schema with title, description and format taken away. *)
Definition withoutHeading (s : spec.Schema) : spec.Schema :=
  spec.mkSchema "" "" (spec.Type_ s) "" (spec.Ref s) (spec.Items s)
    (spec.AdditionalProperties s) (spec.Properties s) (spec.Enum s)
    (spec.Example s) (spec.Extensions s).

(** The last byte of a string. *)
Fixpoint lastByte (s : string) : option ascii :=
  match s with
  | EmptyString => None
  | String c EmptyString => Some c
  | String _ rest => lastByte rest
  end.

(** Whether the byte [c] occurs in [s]. *)
Fixpoint occurs (c : ascii) (s : string) : bool :=
  match s with
  | EmptyString => false
  | String x rest => Ascii.eqb c x || occurs c rest
  end.

(** A byte that is in the encoding of no white-space rune; the letters,
    the digits and the underscore are such bytes. *)
Definition outsideSpaces (c : ascii) : bool :=
  forallb (fun w => negb (occurs c w)) Strings.spaceRunes.

(** The schema [addField] stores for a field. *)
Definition fieldSchema (env : Env) (packageName : string) (field : proto.Field)
    (mapKeyType : string) (repeated : bool) (order : Z) : option spec.Schema :=
  schemaProps (addField env packageName (mkFields ∅ []) field mapKeyType repeated order)
    !! proto.FieldName field.

Definition setPathPrefix (sw : Writer) (prefix : string) : Writer :=
  mkWriter (Swagger sw) (filename sw) (hostname sw) prefix (packageName sw)
    (version sw) (sdkfiles sw) (protoDir sw) (templateDir sw).

(** The entries of [sw.Swagger.Paths.Paths]. *)
Definition pathEntries (sw : Writer) : gmap string spec.PathItem :=
  match spec.PathsPtr (Swagger sw) with
  | Some ps => default ∅ (spec.PathsOf ps)
  | None => ∅
  end.

(** The elements [walk] finds inside an element. *)
Definition contents (element : proto.Visitee) : list proto.Visitee :=
  match element with
  | proto.Message _ _ inner
  | proto.Enum _ _ inner
  | proto.Service _ _ inner
  | proto.Oneof _ inner => inner
  | _ => []
  end.

(** The writer of an outcome, with another path prefix. *)
Definition withPathPrefix (prefix : string) (o : Outcome Writer) : Outcome Writer :=
  (fun sw => setPathPrefix sw prefix) <$> o.

(** A handler that treats a writer with another path prefix alike. *)
Definition blind (prefix : string) (handle : Handler) : Prop :=
  forall parent element sw,
    handle parent element (setPathPrefix sw prefix) =
    withPathPrefix prefix (handle parent element sw).

(** Where the handler [h1] returns, [h2] returns the same. *)
Definition refines (h1 h2 : Handler) : Prop :=
  forall parent element sw sw',
    h1 parent element sw = Done sw' -> h2 parent element sw = Done sw'.

(** The path table [sw.Swagger.Paths] is set (it is not nil). *)
Definition pathsSet (sw : Writer) : Prop := is_Some (spec.PathsPtr (Swagger sw)).

(** What a caller of [WalkFile] sees: the document and the error. *)
Definition result (r : Writer * option error) : spec.Swagger * option error :=
  (Swagger r.1, r.2).

(** ** The callers: the command and the protoc plugin *)

(** The errors the two [main] packages return: their own, and those of
    [WalkFile] and of writing. *)
Inductive exitError :=
| SameFile                      (* "output file must be different than input file" *)
| WalkFailed (err : error)
| WriteFailed (msg : string)
| FlagNil (key : string)        (* "<key> is nil" *)
| FlagEmpty (key : string).     (* "<key> is empty" *)

(** [errors.Is(err, swagger.ErrNoServiceDefinition)]. *)
Definition isErrNoServiceDefinition (err : error) : bool :=
  match err with
  | ErrNoServiceDefinition => true
  | _ => false
  end.

(** A file handed to the plugin: [f.Desc.Path()], [f.Generate] and
    [f.GeneratedFilenamePrefix] of [protogen.File]. *)
Record PluginFile := mkPluginFile {
  DescPath : string;
  Generate : bool;
  GeneratedFilenamePrefix : string
}.

(** The flags of the plugin. *)
Record PluginFlags := mkPluginFlags {
  flagHostname : string;
  flagPathPrefix : string;
  flagOutputSuffix : string;
  flagVersion : string;
  flagSdkFiles : string;
  flagProtoDir : string;
  flagTemplateDir : string;
  flagOutDir : string
}.

(** [errorIfEmpty(key, value)] of the plugin; [value] is a [*string]. *)
Definition errorIfEmpty (key : string) (value : option string) : option exitError :=
  match value with
  | None => Some (FlagNil key)
  | Some v => if String.eqb v "" then Some (FlagEmpty key) else None
  end.

(** The checks of the required flags, in the order of the plugin. *)
Definition checkRequired (flags : PluginFlags) : option exitError :=
  match errorIfEmpty "hostname" (Some (flagHostname flags)) with
  | Some err => Some err
  | None =>
  match errorIfEmpty "version" (Some (flagVersion flags)) with
  | Some err => Some err
  | None =>
  match errorIfEmpty "sdk_files" (Some (flagSdkFiles flags)) with
  | Some err => Some err
  | None =>
  match errorIfEmpty "proto_dir" (Some (flagProtoDir flags)) with
  | Some err => Some err
  | None => errorIfEmpty "template_dir" (Some (flagTemplateDir flags))
  end end end end.

Section Callers.

Context (env : Env).

(** [os.WriteFile(name, data, perm)], on the disk (the files by name):
    the disk after the call and the text of the error, if any. *)
Context (WriteFile : gmap string string -> string -> string
                     -> gmap string string * option string).

(** [sw.Save(filename)]. *)
Definition Save (sw : Writer) (disk : gmap string string) (filename : string)
  : gmap string string * option exitError :=
  let body := Get env sw in
  match WriteFile disk filename body with
  | (disk, Some msg) => (disk, Some (WriteFailed msg))
  | (disk, None) => (disk, None)
  end.

(** [parse] of the command (the version that gives [NewWriter] its
    seven arguments). *)
Definition parse (fuel : nat) (disk : gmap string string)
    (hostname filename output prefix version sdkfiles protoDir templateDir : string)
  : Outcome (gmap string string * option exitError) :=
  if String.eqb filename output then Done (disk, Some SameFile)
  else
    let writer := NewWriter filename hostname prefix version sdkfiles protoDir templateDir in
    r ← WalkFile env fuel writer;
    match r.2 with
    | Some err =>
        if negb (isErrNoServiceDefinition err) then Done (disk, Some (WalkFailed err))
        else Done (Save r.1 disk output)
    | None => Done (Save r.1 disk output)
    end.

(** The function the plugin gives to [opts.Run], on the files of the
    request: the files generated so far ([gen.NewGeneratedFile] and
    [g.Write], name and content) and the error returned. *)
Fixpoint generate (fuel : nat) (flags : PluginFlags) (files : list PluginFile)
    (generated : list (string * string))
  : Outcome (list (string * string) * option exitError) :=
  match files with
  | [] => Done (generated, None)
  | f :: rest =>
      let in_ := DescPath f in
      if negb (Generate f) then generate fuel flags rest generated
      else
        match checkRequired flags with
        | Some err => Done (generated, Some err)
        | None =>
            let writer :=
              NewWriter in_ (flagHostname flags) (flagPathPrefix flags) (flagVersion flags)
                (flagSdkFiles flags) (flagProtoDir flags) (flagTemplateDir flags) in
            r ← WalkFile env fuel writer;
            match r.2 with
            | Some err =>
                if isErrNoServiceDefinition err then generate fuel flags rest generated
                else Done (generated, Some (WalkFailed err))
            | None =>
                let out :=
                  flagOutDir flags +:+ filepath_Base env (GeneratedFilenamePrefix f)
                    +:+ flagOutputSuffix flags in
                generate fuel flags rest (generated ++ [(out, Get env r.1)])
            end
        end
  end.

End Callers.

(** ** More vocabulary *)

(** The names of the tags of the document. *)
Definition tagNames (sw : Writer) : list string :=
  spec.TagName <$> spec.Tags (Swagger sw).

(** The definitions of the document, none when the map is nil. *)
Definition definitionsOf (sw : Writer) : gmap string spec.Schema :=
  default ∅ (spec.Definitions (Swagger sw)).

(** The configuration of a writer: what [NewWriter] is given. *)
Definition config (sw : Writer) : string * string * string * string * list string * string * string :=
  (filename sw, hostname sw, pathPrefix sw, version sw, sdkfiles sw, protoDir sw, templateDir sw).

(** The document of a writer but for its definitions. *)
Definition besidesDefinitions (sw : Writer) : spec.Swagger :=
  spec.mkSwagger (spec.SwaggerVersion (Swagger sw)) (spec.Schemes (Swagger sw))
    (spec.Produces (Swagger sw)) (spec.Consumes (Swagger sw)) (spec.Host (Swagger sw))
    (spec.Security (Swagger sw)) (spec.SecurityDefinitions (Swagger sw))
    (spec.InfoOf (Swagger sw)) None (spec.PathsPtr (Swagger sw)) (spec.Tags (Swagger sw)).

(** No RPC in an element, at any depth. *)
Fixpoint withoutRPC (element : proto.Visitee) : bool :=
  match element with
  | proto.RPC _ _ _ _ => false
  | proto.Message _ _ inner
  | proto.Enum _ _ inner
  | proto.Service _ _ inner
  | proto.Oneof _ inner => forallb withoutRPC inner
  | _ => true
  end.

(** The name of an RPC element. *)
Definition rpcNameOf (element : proto.Visitee) : option string :=
  match element with
  | proto.RPC _ Name _ _ => Some Name
  | _ => None
  end.

(** What the body of a service holds besides RPCs: comments and
    options. *)
Definition inService (element : proto.Visitee) : bool :=
  match element with
  | proto.RPC _ _ _ _ | proto.CommentElement _ | proto.Other => true
  | _ => false
  end.

(** The name of an enum field element. *)
Definition enumFieldNameOf (element : proto.Visitee) : option string :=
  match element with
  | proto.EnumField Name => Some Name
  | _ => None
  end.

(** The reference a field of a rich type gets. *)
Definition richReference (packageName type : string) : string :=
  "#/definitions/" +:+
  (if Strings.Contains type "." then type else packageName +:+ "." +:+ type).

(** The files the plugin does not pass over: those to generate. *)
Definition toGenerate (files : list PluginFile) : list PluginFile :=
  filter (fun f => Generate f = true) files.

(** From [sw] to [s], nothing changed but the definitions, and none of
    them was removed. *)
Definition onlyDefinitions (sw s : Writer) : Prop :=
  besidesDefinitions s = besidesDefinitions sw
  /\ config s = config sw
  /\ dom (definitionsOf sw) ⊆ dom (definitionsOf s).

(** The elements no handler acts on: comments, and syntax, options and
    the like. *)
Definition passive (element : proto.Visitee) : bool :=
  match element with
  | proto.CommentElement _ | proto.Other => true
  | _ => false
  end.

(** A message or an enum. *)
Definition defining (element : proto.Visitee) : bool :=
  match element with
  | proto.Message _ _ _ | proto.Enum _ _ _ => true
  | _ => false
  end.

(** ** A second file system, for the closed examples *)
Module Shop.

(** types.proto: a package, a message and an enum, and a service that
    an importer does not see. *)
Definition types_proto : proto.Proto :=
  proto.mkProto
    [ proto.Other;
      proto.Package "types";
      proto.Message None "Money"
        [ proto.NormalField (proto.mkField None "units" "int32") false ];
      proto.Enum None "Currency" [ proto.EnumField "EUR"; proto.Other; proto.EnumField "USD" ];
      proto.Service None "TypeService" [ proto.RPC None "Describe" "Money" "Money" ] ].

(** shop.proto: imports types.proto and a file that is not there, and
    declares a service with two RPCs. *)
Definition shop_proto : proto.Proto :=
  proto.mkProto
    [ proto.Other;
      proto.Package "shop";
      proto.Import "types.proto";
      proto.Import "missing.proto";
      proto.Message (Sample.comment1 " An order; 1") "Order" Sample.shipment_elements;
      proto.Service (Sample.comment1 " Orders") "ShopService"
        [ proto.CommentElement (proto.mkComment [" the RPCs"]);
          proto.RPC None "Buy" "Order" "types.Money";
          proto.RPC None "Cancel" "Order" "Order" ] ].

(** early.proto: a message before the package. *)
Definition early_proto : proto.Proto :=
  proto.mkProto
    [ proto.Other;
      proto.Message None "Order" [];
      proto.Package "shop" ].

(** loop.proto: a file that imports itself. *)
Definition loop_proto : proto.Proto :=
  proto.mkProto [ proto.Package "loop"; proto.Import "loop.proto" ].

Definition files (name : string) : proto.Proto + string :=
  if String.eqb name "types.proto" then inl types_proto
  else if String.eqb name "shop.proto" then inl shop_proto
  else if String.eqb name "early.proto" then inl early_proto
  else if String.eqb name "loop.proto" then inl loop_proto
  else Sample.files name.

(** The environment of [Sample], with these files beside its own. *)
Definition env : Env :=
  {| typeAliases := typeAliases Sample.env;
     mapUnicodeLower := mapUnicodeLower Sample.env;
     openAndParse := files;
     ReadFile := ReadFile Sample.env;
     executeTemplate := executeTemplate Sample.env;
     filepath_Join := filepath_Join Sample.env;
     filepath_Base := filepath_Base Sample.env;
     filepath_Ext := filepath_Ext Sample.env;
     path_Join := path_Join Sample.env;
     path_Base := path_Base Sample.env;
     url_JoinPath := url_JoinPath Sample.env;
     MarshalIndent := fun doc => "swagger " +:+ spec.SwaggerVersion doc |}.

(** A disk where every write succeeds. *)
Definition WriteFile (disk : gmap string string) (name data : string)
  : gmap string string * option string :=
  (<[name := data]> disk, None).

(** The writer the command makes for shop.proto. *)
Definition writer (filename : string) : Writer :=
  NewWriter filename "api.example.com" "" "1.0" "sdk_v1.ts,sdk-v1.py" "" "templates".

(** The flags of a run of the plugin. *)
Definition flags : PluginFlags :=
  mkPluginFlags "api.example.com" "/twirp" ".swagger.json" "1.0" "sdk_v1.ts" "protos"
    "templates" "out/".

End Shop.

(** The names of the messages and enums an element declares, itself
    and inside, at any depth. *)
Fixpoint declaredNames (element : proto.Visitee) : list string :=
  match element with
  | proto.Message _ Name inner
  | proto.Enum _ Name inner => Name :: flat_map declaredNames inner
  | proto.Service _ _ inner
  | proto.Oneof _ inner => flat_map declaredNames inner
  | _ => []
  end.

(** An element that holds, at any depth, messages, enums, fields,
    one-of blocks, comments and options only. *)
Fixpoint typesOnly (element : proto.Visitee) : bool :=
  match element with
  | proto.Package _ | proto.Import _ | proto.Service _ _ _ | proto.RPC _ _ _ _ => false
  | proto.Message _ _ inner
  | proto.Enum _ _ inner
  | proto.Oneof _ inner => forallb typesOnly inner
  | _ => true
  end.

(** Type and format of a field type, as [addField] resolves them
    through the table. *)
Definition resolved (env : Env) (type : string) : string * string :=
  match typeAliases env !! type with
  | Some p => (AliasType p, if String.eqb (AliasType p) (AliasFormat p) then "" else AliasFormat p)
  | None => (type, "")
  end.

(** The additional properties [addField] gives to a map field: those of
    the type the table has for [mapKeyType], none when the table has
    no such type or the field is no map. *)
Definition mapValues (env : Env) (mapKeyType : string) : option spec.SchemaOrBool :=
  if negb (String.eqb mapKeyType "") then
    match typeAliases env !! mapKeyType with
    | Some p =>
        Some (spec.mkSchemaOrBool false
                (Some (spec.mkSchema "" "" [AliasType p] "" "" None None None [] None None)))
    | None => None
    end
  else None.

(** Type and format of a field as [addField] has them when it chooses
    between a JSON type and a reference: "object" for a map field whose
    key type is in the table, the resolved type otherwise. *)
Definition storedType (env : Env) (field : proto.Field) (mapKeyType : string) : string * string :=
  match mapValues env mapKeyType with
  | Some _ => ("object", "")
  | None => resolved env (proto.FieldType field)
  end.




(** The writer the plugin makes for a file of the request. *)
Definition pluginWriter (flags : PluginFlags) (f : PluginFile) : Writer :=
  NewWriter (DescPath f) (flagHostname flags) (flagPathPrefix flags) (flagVersion flags)
    (flagSdkFiles flags) (flagProtoDir flags) (flagTemplateDir flags).

(** The file the plugin is to generate for [f]: name and content when
    the walk of [f] returns no error, none otherwise. *)
Definition generatedFor (env : Env) (fuel : nat) (flags : PluginFlags) (f : PluginFile)
  : option (string * string) :=
  match WalkFile env fuel (pluginWriter flags f) with
  | Done (sw, None) =>
      Some (flagOutDir flags +:+ filepath_Base env (GeneratedFilenamePrefix f)
              +:+ flagOutputSuffix flags,
            Get env sw)
  | _ => None
  end.

(** ** A file system with a directory, for the plugin *)
Module Tree.

(** The files of [Shop], in the directory protos. *)
Definition files (name : string) : proto.Proto + string :=
  match Strings.dropPrefix name "protos/" with
  | Some rest => Shop.files rest
  | None => inr ("open " +:+ name +:+ ": no such file or directory")
  end.

(** The extension of a file name: from the last dot of its last
    element on. *)
Definition ext (name : string) : string :=
  let parts := Strings.Split (filepath_Base Shop.env name) "." in
  match parts with
  | _ :: _ :: _ => "." +:+ List.last parts ""
  | _ => ""
  end.

Definition env : Env :=
  {| typeAliases := typeAliases Shop.env;
     mapUnicodeLower := mapUnicodeLower Shop.env;
     openAndParse := files;
     ReadFile := ReadFile Shop.env;
     executeTemplate := executeTemplate Shop.env;
     filepath_Join := filepath_Join Shop.env;
     filepath_Base := filepath_Base Shop.env;
     filepath_Ext := ext;
     path_Join := path_Join Shop.env;
     path_Base := path_Base Shop.env;
     url_JoinPath := url_JoinPath Shop.env;
     MarshalIndent := MarshalIndent Shop.env |}.

(** The files of a request: shop.proto and empty_service.proto to
    generate, types.proto only there as an import. *)
Definition request : list PluginFile :=
  [ mkPluginFile "types.proto" false "gen/types";
    mkPluginFile "shop.proto" true "gen/shop";
    mkPluginFile "empty_service.proto" true "gen/empty_service" ].

End Tree.

(** * Properties *)
(** ** Strings *)

Lemma append_cons (c : ascii) (s t : string) : String c s +:+ t = String c (s +:+ t).
Proof. reflexivity. Qed.

Lemma append_nil_l (s : string) : "" +:+ s = s.
Proof. reflexivity. Qed.

Lemma append_nil_r (s : string) : s +:+ "" = s.
Proof. induction s as [|c s IH]; [reflexivity|]. by rewrite append_cons, IH. Qed.

Lemma append_assoc (a b c : string) : (a +:+ b) +:+ c = a +:+ (b +:+ c).
Proof. induction a as [|x a IH]; [reflexivity|]. by rewrite !append_cons, IH. Qed.

Lemma length_append (a b : string) :
  String.length (a +:+ b) = (String.length a + String.length b)%nat.
Proof. induction a as [|x a IH]; [reflexivity|]. rewrite append_cons. simpl. by rewrite IH. Qed.

Section Semicolon.

Import Strings.

Lemma HasPrefix_semicolon (c : ascii) (s : string) :
  HasPrefix (String c s) ";" = Ascii.eqb c ";".
Proof. simpl. by rewrite andb_true_r. Qed.

Lemma Contains_cons_semicolon (c : ascii) (s : string) :
  Contains (String c s) ";" = Ascii.eqb c ";" || Contains s ";".
Proof. cbn [Contains]. by rewrite HasPrefix_semicolon. Qed.

Lemma Contains_nil_semicolon : Contains "" ";" = false.
Proof. reflexivity. Qed.

Lemma splitFrom_nonempty (sep : string) (s : string) (skip : nat) :
  splitFrom sep skip s <> [].
Proof.
  revert skip. induction s as [|c s IH]; intros skip; [done|].
  cbn [splitFrom]. destruct skip as [|k]; [|apply IH].
  destruct (HasPrefix (String c s) sep); [done|].
  by destruct (splitFrom sep 0 s).
Qed.

Lemma Split_cons_semicolon (c : ascii) (s : string) :
  Split (String c s) ";" =
  if Ascii.eqb c ";" then "" :: Split s ";"
  else match Split s ";" with
       | piece :: rest => String c piece :: rest
       | [] => [String c ""]
       end.
Proof. unfold Split. cbn [splitFrom]. by rewrite HasPrefix_semicolon. Qed.

(** Without a semicolon, [Split] returns the string whole. *)
Lemma Split_without (s : string) : Contains s ";" = false -> Split s ";" = [s].
Proof.
  induction s as [|c s IH]; [done|].
  rewrite Contains_cons_semicolon, Split_cons_semicolon.
  intros [Hc Hs]%orb_false_elim. rewrite Hc, (IH Hs). done.
Qed.

(** With one, the first piece is what precedes the first semicolon, and
    the other pieces are those of what follows it. *)
Lemma Split_at_first (s : string) :
  Contains s ";" = true ->
  exists a b, s = a +:+ ";" +:+ b /\ Contains a ";" = false
              /\ Split s ";" = a :: Split b ";".
Proof.
  induction s as [|c s IH]; [done|].
  rewrite Contains_cons_semicolon, Split_cons_semicolon.
  destruct (Ascii.eqb c ";") eqn:Hc.
  - intros _. apply Ascii.eqb_eq in Hc as ->. by exists "", s.
  - simpl. intros Hs. destruct (IH Hs) as (a & b & -> & Ha & ->).
    exists (String c a), b. split_and!; [done| |done].
    by rewrite Contains_cons_semicolon, Hc, Ha.
Qed.

(** The first piece and the rest of the string after it. *)
Lemma Split_head (s : string) :
  exists piece tail more,
    Split s ";" = piece :: more /\ s = piece +:+ tail
    /\ Contains piece ";" = false /\ (tail = "" \/ HasPrefix tail ";" = true).
Proof.
  destruct (Contains s ";") eqn:Hs.
  - destruct (Split_at_first s Hs) as (a & b & -> & Ha & ->).
    exists a, (";" +:+ b), (Split b ";"). split_and!; auto.
  - exists s, "", []. rewrite (Split_without s Hs), append_nil_r. split_and!; auto.
Qed.

End Semicolon.

(** ** The comment parser *)

Lemma commentText_acc (lines : list string) (acc : string) :
  commentText acc lines = acc +:+ commentText "" lines.
Proof.
  revert acc. induction lines as [|line rest IH]; intros acc; cbn [commentText].
  - by rewrite append_nil_r.
  - destruct (String.eqb (Strings.TrimSpace line) ""); [by rewrite append_nil_r|].
    rewrite (IH (acc +:+ _)), (IH ("" +:+ _)), append_nil_l. by rewrite !append_assoc.
Qed.

Lemma commentText_leading (lines : list string) :
  commentText "" lines =
  match leadingLines lines with
  | [] => ""
  | _ :: _ => " " +:+ leadingText lines
  end.
Proof.
  induction lines as [|line rest IH]; [done|].
  unfold leadingText in *. cbn [commentText leadingLines].
  destruct (String.eqb (Strings.TrimSpace line) ""); [done|].
  rewrite commentText_acc, IH, append_nil_l.
  destruct (leadingLines rest) as [|l ls]; cbn [Strings.Join].
  - by rewrite !append_nil_r.
  - by rewrite !append_assoc.
Qed.

(** [comment] splits the first non-blank text of the comment. *)
Lemma from1_commentText (lines : list string) :
  from1 (commentText "" lines) = leadingText lines.
Proof.
  rewrite commentText_leading. unfold leadingText.
  by destruct (leadingLines lines).
Qed.

Lemma commentText_length (lines : list string) :
  leadingText lines <> "" -> (1 <? String.length (commentText "" lines))%nat = true.
Proof.
  rewrite commentText_leading. unfold leadingText.
  destruct (leadingLines lines) as [|l ls] eqn:E; [done|].
  intros H. apply Nat.ltb_lt. rewrite length_append.
  destruct (Strings.Join (l :: ls) " "); [done|]. simpl. lia.
Qed.

(** Everything from the first blank line on is lost on [commentText]. *)
Lemma commentText_blank (pre post : list string) (blank acc : string) :
  Strings.TrimSpace blank = "" ->
  commentText acc (pre ++ blank :: post) = commentText acc pre.
Proof.
  intros Hb. revert acc. induction pre as [|line pre IH]; intros acc; cbn.
  - by rewrite Hb.
  - destruct (String.eqb (Strings.TrimSpace line) ""); [done|]. apply IH.
Qed.

Lemma descriptionLine_blank (blank : string) :
  Strings.TrimSpace blank = "" -> descriptionLine blank = "".
Proof. unfold descriptionLine. by intros ->. Qed.

(** C8. For a comment whose first non-blank text (its lines up to the
    first blank one, trimmed and joined) contains a semicolon, [comment]
    returns what precedes the first semicolon as title, and as example
    the segment that follows it, up to the next semicolon and trimmed:
    as an integer if [Atoi] accepts it, else as a float if [ParseFloat]
    accepts it, else as the string itself.  So "Age; 42" gives the
    integer 42, "Age; 42.5" the float 42.5 (85 * 2^-1) and "Age; adult"
    the string "adult", each with title "Age". *)
Theorem comment_title_and_example :
  (forall lines : list string,
     Strings.Contains (leadingText lines) ";" = true ->
     exists title segment tail : string,
       leadingText lines = title +:+ ";" +:+ segment +:+ tail
       /\ Strings.Contains title ";" = false
       /\ Strings.Contains segment ";" = false
       /\ (tail = "" \/ Strings.HasPrefix tail ";" = true)
       /\ comment (Some (proto.mkComment lines)) =
          (title,
           match strconv.Atoi (Strings.TrimSpace segment) with
           | Some n => spec.AnyInt n
           | None =>
               match strconv.ParseFloat (Strings.TrimSpace segment) with
               | Some f => spec.AnyFloat f
               | None => spec.AnyString (Strings.TrimSpace segment)
               end
           end))
  /\ comment (Some (proto.mkComment ["Age; 42"])) = ("Age", spec.AnyInt 42)
  /\ comment (Some (proto.mkComment ["Age; 42.5"])) =
     ("Age", spec.AnyFloat (S754_finite false (85 * 2 ^ 46) (-47)))
  /\ comment (Some (proto.mkComment ["Age; adult"])) = ("Age", spec.AnyString "adult").
Proof.
  split; [|by vm_compute].
  intros lines Hsemi.
  assert (Hne : leadingText lines <> "") by (by intros E; rewrite E in Hsemi).
  destruct (Split_at_first _ Hsemi) as (title & after & Htext & Htitle & Hsplit).
  destruct (Split_head after) as (segment & tail & more & Hafter & -> & Hseg & Htail).
  exists title, segment, tail. split_and!; try done.
  unfold comment. cbn [proto.Lines].
  rewrite (commentText_length _ Hne), from1_commentText, Hsplit, Hafter.
  reflexivity.
Qed.

(** A comment of two lines with a second semicolon. *)
Lemma comment_title_and_example_witness :
  Strings.Contains (leadingText [" Age of the"; "person ; 42 ; years"]) ";" = true
  /\ exists title segment tail : string,
       leadingText [" Age of the"; "person ; 42 ; years"] = title +:+ ";" +:+ segment +:+ tail
       /\ Strings.Contains title ";" = false
       /\ Strings.Contains segment ";" = false
       /\ (tail = "" \/ Strings.HasPrefix tail ";" = true)
       /\ comment (Some (proto.mkComment [" Age of the"; "person ; 42 ; years"])) =
          (title,
           match strconv.Atoi (Strings.TrimSpace segment) with
           | Some n => spec.AnyInt n
           | None =>
               match strconv.ParseFloat (Strings.TrimSpace segment) with
               | Some f => spec.AnyFloat f
               | None => spec.AnyString (Strings.TrimSpace segment)
               end
           end).
Proof.
  split; [reflexivity|].
  apply (proj1 comment_title_and_example). reflexivity.
Defined.

(** C10. Title and example come from the lines before the first blank
    line only: a comment cut at a blank line has the same title and
    example.  The description is made of every line: the lines after the
    blank one are in it, each up to its first semicolon. *)
Theorem comment_stops_at_blank_line (pre post : list string) (blank : string) :
  Strings.TrimSpace blank = "" ->
  comment (Some (proto.mkComment (pre ++ blank :: post))) =
    comment (Some (proto.mkComment pre))
  /\ description (Some (proto.mkComment (pre ++ blank :: post))) =
     Strings.Join (map descriptionLine pre ++ "" :: map descriptionLine post) LF.
Proof.
  intros Hb. split.
  - unfold comment. cbn [proto.Lines]. by rewrite commentText_blank.
  - unfold description. cbn [proto.Lines].
    by rewrite map_app, map_cons, descriptionLine_blank.
Qed.

(** A title and an example after a blank line: both are ignored, and
    the description has the line. *)
Lemma comment_stops_at_blank_line_witness :
  Strings.TrimSpace " " = ""
  /\ comment (Some (proto.mkComment (["Summary"] ++ " " :: ["Age; 42"]))) =
       comment (Some (proto.mkComment ["Summary"]))
  /\ description (Some (proto.mkComment (["Summary"] ++ " " :: ["Age; 42"]))) =
       Strings.Join (map descriptionLine ["Summary"] ++ "" :: map descriptionLine ["Age; 42"]) LF.
Proof.
  split; [reflexivity|].
  apply (comment_stops_at_blank_line ["Summary"] ["Age; 42"] " "). reflexivity.
Defined.

(** ** Walking *)

(** Induction on an element, with the property for the elements inside. *)
Lemma Visitee_nested_ind (P : proto.Visitee -> Prop) :
  (forall element, Forall P (contents element) -> P element) ->
  forall element, P element.
Proof.
  intros H. fix IH 1. intros element. apply H.
  destruct element as [| |? ? inner|? ? inner| |? ? inner| |? inner| | | | |];
    cbn [contents]; try (by constructor).
  all: induction inner as [|e inner IHinner];
    [constructor | constructor; [apply IH | apply IHinner]].
Qed.

(** [visit] is the handlers, then [walk] on what the element contains. *)
Lemma visit_unfold (handle : Handler) parent element sw :
  visit handle parent element sw =
  handle parent element sw ≫= fun sw => walk handle (Some element) (contents element) sw.
Proof.
  assert (Hfix : forall inner sw,
    (fix walk (elements : list proto.Visitee) (sw : Writer) : Outcome Writer :=
       match elements with
       | [] => Done sw
       | e :: rest => sw ← visit handle (Some element) e sw; walk rest sw
       end) inner sw = walk handle (Some element) inner sw).
  { induction inner as [|e inner IH]; intros sw0; [done|].
    cbn [walk]. destruct (visit handle (Some element) e sw0); cbn; auto. }
  destruct element; cbn [visit contents];
    destruct (handle _ _ sw) as [sw1| |]; cbn; auto.
Qed.

(** *** The path prefix is carried along and never read *)

Section PathPrefix.

Context (env : Env) (prefix : string).


Lemma withPathPrefix_bind (o : Outcome Writer) (k1 k2 : Writer -> Outcome Writer) :
  (forall sw, k1 (setPathPrefix sw prefix) = withPathPrefix prefix (k2 sw)) ->
  withPathPrefix prefix o ≫= k1 = withPathPrefix prefix (o ≫= k2).
Proof. intros H. destruct o; cbn; auto. Qed.

Lemma walk_blind (handle : Handler) :
  blind prefix handle ->
  forall elements parent sw,
    walk handle parent elements (setPathPrefix sw prefix) =
    withPathPrefix prefix (walk handle parent elements sw).
Proof.
  intros Hh.
  assert (Hvisit : forall element parent sw,
    visit handle parent element (setPathPrefix sw prefix) =
    withPathPrefix prefix (visit handle parent element sw)).
  { induction element as [element IH] using Visitee_nested_ind.
    intros parent sw. rewrite !visit_unfold, Hh.
    apply withPathPrefix_bind. generalize (Some element). clear parent sw.
    induction IH as [|e inner He _ IHinner]; intros parent sw; [done|].
    cbn [walk]. rewrite He. by apply withPathPrefix_bind. }
  induction elements as [|e rest IH]; intros parent sw; [done|].
  cbn [walk]. rewrite Hvisit. by apply withPathPrefix_bind.
Qed.

Lemma assignDefinition_blind sw name schema :
  assignDefinition (setPathPrefix sw prefix) name schema =
  withPathPrefix prefix (assignDefinition sw name schema).
Proof. unfold assignDefinition. cbn. by destruct (spec.Definitions (Swagger sw)). Qed.

Lemma assignPath_blind sw name item :
  assignPath (setPathPrefix sw prefix) name item = withPathPrefix prefix (assignPath sw name item).
Proof.
  unfold assignPath. cbn.
  destruct (spec.PathsPtr (Swagger sw)) as [ps|]; [|done].
  by destruct (spec.PathsOf ps).
Qed.

Lemma Message_blind sw Doc Name Elements :
  Message env (setPathPrefix sw prefix) Doc Name Elements =
  withPathPrefix prefix (Message env sw Doc Name Elements).
Proof. apply assignDefinition_blind. Qed.

Lemma Enum_blind sw Doc Name Elements :
  Enum (setPathPrefix sw prefix) Doc Name Elements = withPathPrefix prefix (Enum sw Doc Name Elements).
Proof. unfold Enum. cbn. destruct (comment Doc). apply assignDefinition_blind. Qed.

Lemma RPC_blind sw parent Doc Name RequestType ReturnsType :
  RPC env (setPathPrefix sw prefix) parent Doc Name RequestType ReturnsType =
  withPathPrefix prefix (RPC env sw parent Doc Name RequestType ReturnsType).
Proof.
  unfold RPC. destruct parent as [[]|]; try done. apply assignPath_blind.
Qed.

Lemma Service_blind sw Doc Name :
  Service (setPathPrefix sw prefix) Doc Name = setPathPrefix (Service sw Doc Name) prefix.
Proof. unfold Service. cbn. by destruct (negb _). Qed.

Lemma Import_blind fuel sw Filename :
  Import env fuel (setPathPrefix sw prefix) Filename = withPathPrefix prefix (Import env fuel sw Filename).
Proof.
  revert sw Filename. induction fuel as [|fuel IH]; intros sw Filename; cbn [Import].
  - destruct (excluded Filename); [done|].
    change (loadProtoFile env (setPathPrefix sw prefix) Filename)
      with (loadProtoFile env sw Filename).
    by destruct (loadProtoFile env sw Filename).
  - destruct (excluded Filename); [done|].
    change (loadProtoFile env (setPathPrefix sw prefix) Filename)
      with (loadProtoFile env sw Filename).
    destruct (loadProtoFile env sw Filename) as [definition|]; [|done].
    rewrite walk_blind.
    + by apply withPathPrefix_bind.
    + intros parent element sw0.
      destruct element; try done; cbn [importHandlers];
        auto using Message_blind, Enum_blind.
Qed.

Lemma Handlers_blind fuel : blind prefix (Handlers env fuel).
Proof.
  intros parent element sw.
  destruct element; try done; cbn [Handlers];
    auto using Message_blind, Enum_blind, RPC_blind, Import_blind.
  cbn. by rewrite Service_blind.
Qed.

Lemma WalkFile_blind fuel sw :
  WalkFile env fuel (setPathPrefix sw prefix) =
  (fun r : Writer * option error => (setPathPrefix r.1 prefix, r.2)) <$> WalkFile env fuel sw.
Proof.
  unfold WalkFile.
  change (loadProtoFile env (setPathPrefix sw prefix) (filename (setPathPrefix sw prefix)))
    with (loadProtoFile env sw (filename sw)).
  destruct (loadProtoFile env sw (filename sw)) as [definition|]; [|done].
  rewrite (walk_blind _ (Handlers_blind fuel)).
  destruct (walk _ _ _ sw) as [sw'| |]; [|done..]. cbn.
  unfold countPaths. cbn.
  destruct (spec.PathsPtr (Swagger sw')) as [ps|]; [|done].
  destruct (spec.PathsOf ps) as [paths|]; cbn; [|done].
  by destruct (size paths =? 0)%nat.
Qed.

End PathPrefix.

(** C9. Whatever the path prefix the writer is made with, [WalkFile]
    ends the same way, with the same document and the same error: the
    prefix (by default "/twirp") is stored and nothing reads it. *)
Theorem pathPrefix_never_read (env : Env) (fuel : nat)
    (filename hostname prefix1 prefix2 version sdkfiles protoDir templateDir : string) :
  result <$> WalkFile env fuel
    (NewWriter filename hostname prefix1 version sdkfiles protoDir templateDir)
  = result <$> WalkFile env fuel
    (NewWriter filename hostname prefix2 version sdkfiles protoDir templateDir).
Proof.
  set (sw2 := NewWriter filename hostname prefix2 version sdkfiles protoDir templateDir).
  assert (H : NewWriter filename hostname prefix1 version sdkfiles protoDir templateDir
              = setPathPrefix sw2 (if String.eqb prefix1 "" then "/twirp" else prefix1))
    by reflexivity.
  rewrite H, WalkFile_blind. by destruct (WalkFile env fuel sw2) as [[]| |].
Qed.

(** ** Routes *)

(** C5. The RPC [Name] of the service [S], under the package of the
    writer, is stored under the route "/" base "/" package "." S "/"
    Name, where base is [S] in lower case with the occurrences of
    "service" taken out; for the service OrderService, the RPC GetOrder
    and the package orders, the route is
    /order/orders.OrderService/GetOrder. *)
Theorem RPC_route_path :
  (forall (env : Env) (sw : Writer) (serviceDoc : option proto.Comment) (S : string)
          (inner : list proto.Visitee) (Doc : option proto.Comment)
          (Name RequestType ReturnsType : string) (paths : gmap string spec.PathItem),
     spec.PathsPtr (Swagger sw) = Some (spec.mkPaths (Some paths)) ->
     let base :=
       Strings.ReplaceAll (Strings.ToLower (mapUnicodeLower env) S) "service" "" in
     let route := "/" +:+ base +:+ "/" +:+ packageName sw +:+ "." +:+ S +:+ "/" +:+ Name in
     exists (sw' : Writer) (operation : spec.Operation),
       RPC env sw (Some (proto.Service serviceDoc S inner)) Doc Name RequestType ReturnsType
         = Done sw'
       /\ pathEntries sw' = <[route := spec.mkPathItem (Some operation)]> paths
       /\ spec.ID operation = Name
       /\ spec.OperationTags operation = [S])
  /\ (forall env : Env,
        pathName env "orders" "OrderService" "GetOrder" = "/order/orders.OrderService/GetOrder").
Proof.
  split; [|done].
  intros env sw serviceDoc S inner Doc Name RequestType ReturnsType paths Hpaths base route.
  unfold RPC, assignPath. rewrite Hpaths. cbn [spec.PathsOf].
  eexists _, _. split; [reflexivity|]. by split_and!.
Qed.

(** The RPC GetOrder of OrderService, after the package orders. *)
Lemma RPC_route_path_witness :
  let sw := Package Sample.env
              (NewWriter "orders.proto" "api.example.com" "" "1.0" "sdk.ts" "" "templates")
              "orders" in
  spec.PathsPtr (Swagger sw) = Some (spec.mkPaths (Some ∅))
  /\ exists (sw' : Writer) (operation : spec.Operation),
       RPC Sample.env sw (Some (proto.Service None "OrderService" [])) None
         "GetOrder" "Order" "Order" = Done sw'
       /\ pathEntries sw' =
          <["/" +:+ Strings.ReplaceAll
                      (Strings.ToLower (mapUnicodeLower Sample.env) "OrderService")
                      "service" ""
              +:+ "/" +:+ packageName sw +:+ "." +:+ "OrderService" +:+ "/" +:+ "GetOrder"
            := spec.mkPathItem (Some operation)]> ∅
       /\ spec.ID operation = "GetOrder"
       /\ spec.OperationTags operation = ["OrderService"].
Proof.
  split; [reflexivity|].
  apply (proj1 RPC_route_path Sample.env
           (Package Sample.env
              (NewWriter "orders.proto" "api.example.com" "" "1.0" "sdk.ts" "" "templates")
              "orders")
           None "OrderService" [] None "GetOrder" "Order" "Order" ∅).
  reflexivity.
Defined.

(** orders.proto, walked from the start: one route, the one of GetOrder. *)
Example orders_proto_routes :
  (fun r : Writer * option error =>
     (size (pathEntries r.1),
      spec.ID <$> (pathEntries r.1 !! "/order/orders.OrderService/GetOrder" ≫= spec.Post),
      r.2))
    <$> WalkFile Sample.env 0
          (NewWriter "orders.proto" "api.example.com" "" "1.0" "sdk.ts" "" "templates")
  = Done (1%nat, Some "GetOrder", None).
Proof. by vm_compute. Qed.

(** ** Imports *)

(** C6. An import whose file cannot be loaded or parsed: [Import]
    returns, and the writer (definitions, paths, tags and package name)
    is as it was. *)
Theorem Import_load_failure (env : Env) (fuel : nat) (sw : Writer)
    (Filename err : string) :
  loadProtoFile env sw Filename = inr err ->
  Import env fuel sw Filename = Done sw.
Proof.
  intros Hload. destruct fuel; cbn [Import];
    destruct (excluded Filename); try done; by rewrite Hload.
Qed.

(** An import that is not in the file system, met after orders.proto was
    walked. *)
Lemma Import_load_failure_witness :
  let sw := Package Sample.env
              (NewWriter "orders.proto" "api.example.com" "" "1.0" "sdk.ts" "" "templates")
              "orders" in
  loadProtoFile Sample.env sw "missing.proto"
    = inr "open missing.proto: no such file or directory"
  /\ Import Sample.env 0 sw "missing.proto" = Done sw.
Proof.
  split; [reflexivity|].
  apply (Import_load_failure Sample.env 0 _ "missing.proto"
           "open missing.proto: no such file or directory").
  reflexivity.
Defined.

(** ** The empty result *)

Lemma countPaths_empty (sw : Writer) :
  pathsSet sw -> pathEntries sw = ∅ -> countPaths sw = Done 0%nat.
Proof.
  unfold pathEntries, countPaths. intros [ps ->].
  destruct (spec.PathsOf ps) as [paths|]; cbn; [|done].
  intros ->. by rewrite map_size_empty.
Qed.

(** A root file that cannot be loaded: the error of the loader is
    returned. *)
Lemma WalkFile_load_failure (env : Env) (fuel : nat) (sw : Writer) (err : string) :
  loadProtoFile env sw (filename sw) = inr err ->
  WalkFile env fuel sw = Done (sw, Some (LoadError err)).
Proof. intros H. unfold WalkFile. by rewrite H. Qed.

(** *** The path table, once set, stays set *)

Section PathTable.

Context (env : Env).

(** A handler under which a property of the writer lasts. *)
Lemma walk_keeps (P : Writer -> Prop) (handle : Handler) :
  (forall parent element sw sw', P sw -> handle parent element sw = Done sw' -> P sw') ->
  forall elements parent sw sw',
    P sw -> walk handle parent elements sw = Done sw' -> P sw'.
Proof.
  intros Hh.
  assert (Hvisit : forall element parent sw sw',
    P sw -> visit handle parent element sw = Done sw' -> P sw').
  { induction element as [element IH] using Visitee_nested_ind.
    intros parent sw sw' HP. rewrite visit_unfold.
    destruct (handle parent element sw) as [sw1| |] eqn:E; [|done..]. cbn.
    apply Hh in E; [|done]. revert E. generalize (Some element). revert sw1.
    induction IH as [|e inner He _ IHinner]; intros sw1 parent' HP1; cbn [walk].
    - by intros [= <-].
    - destruct (visit handle parent' e sw1) as [sw2| |] eqn:E2; [|done..]. cbn.
      apply IHinner. by eapply He. }
  induction elements as [|e rest IH]; intros parent sw sw' HP; cbn [walk].
  - by intros [= <-].
  - destruct (visit handle parent e sw) as [sw1| |] eqn:E; [|done..]. cbn.
    apply IH. by eapply Hvisit.
Qed.

Lemma assignDefinition_pathsSet sw sw' name schema :
  pathsSet sw -> assignDefinition sw name schema = Done sw' -> pathsSet sw'.
Proof.
  unfold assignDefinition. destruct (spec.Definitions (Swagger sw)); [|done].
  by intros H [= <-].
Qed.

Lemma Import_pathsSet fuel sw sw' Filename :
  pathsSet sw -> Import env fuel sw Filename = Done sw' -> pathsSet sw'.
Proof.
  revert sw sw' Filename.
  induction fuel as [|fuel IH]; intros sw sw' Filename HP; cbn [Import].
  - destruct (excluded Filename); [by intros [= <-]|].
    destruct (loadProtoFile env sw Filename); [done | by intros [= <-]].
  - destruct (excluded Filename); [by intros [= <-]|].
    destruct (loadProtoFile env sw Filename) as [definition|]; [|by intros [= <-]].
    destruct (walk _ None (proto.Elements definition) sw) as [sw1| |] eqn:E; [|done..].
    cbn. intros [= <-].
    enough (pathsSet sw1) by done.
    apply (walk_keeps pathsSet) in E; [done| |done].
    intros parent element sw2 sw3 HP2.
    destruct element as [|file|doc n es|doc n es| | | | | | | | |];
      cbn [importHandlers]; try (by intros [= <-]).
    + by apply IH.
    + by apply assignDefinition_pathsSet.
    + unfold Enum. destruct (comment doc). by apply assignDefinition_pathsSet.
Qed.

Lemma Handlers_pathsSet fuel parent element sw sw' :
  pathsSet sw -> Handlers env fuel parent element sw = Done sw' -> pathsSet sw'.
Proof.
  intros HP.
  destruct element as [|file|doc n es|doc n es| |doc n es|doc n req ret| | | | | |];
    cbn [Handlers]; try (by intros [= <-]).
  - intros [= <-]. by eexists.
  - by apply Import_pathsSet.
  - by apply assignDefinition_pathsSet.
  - unfold Enum. destruct (comment doc). by apply assignDefinition_pathsSet.
  - intros [= <-]. unfold Service. by destruct (negb _).
  - unfold RPC, assignPath. destruct parent as [[]|]; try done.
    destruct (spec.PathsPtr (Swagger sw)) as [ps|]; [|done].
    destruct (spec.PathsOf ps); [|done]. intros [= <-]. by eexists.
Qed.

(** After the walk of a file that declares a package, the path table
    is set. *)
Lemma walk_package_pathsSet fuel name elements sw sw' :
  proto.Package name ∈ elements ->
  walk (Handlers env fuel) None elements sw = Done sw' -> pathsSet sw'.
Proof.
  revert sw. induction elements as [|e rest IH]; intros sw Hin; [by apply not_elem_of_nil in Hin|].
  cbn [walk].
  destruct (visit (Handlers env fuel) None e sw) as [sw1| |] eqn:E; [|done..]. cbn.
  apply elem_of_cons in Hin as [<-|Hin]; [|by apply IH].
  intros Hrest. apply (walk_keeps pathsSet) in Hrest; [done|apply Handlers_pathsSet|].
  rewrite visit_unfold in E. cbn in E. injection E as <-. by eexists.
Qed.

End PathTable.

(** *** A larger bound on the imports changes no result *)

Section Fuel.

Context (env : Env).

Lemma walk_refines (h1 h2 : Handler) :
  refines h1 h2 ->
  forall elements parent sw sw',
    walk h1 parent elements sw = Done sw' -> walk h2 parent elements sw = Done sw'.
Proof.
  intros Hh.
  assert (Hvisit : forall element parent sw sw',
    visit h1 parent element sw = Done sw' -> visit h2 parent element sw = Done sw').
  { induction element as [element IH] using Visitee_nested_ind.
    intros parent sw sw'. rewrite !visit_unfold.
    destruct (h1 parent element sw) as [sw1| |] eqn:E; [|done..].
    rewrite (Hh _ _ _ _ E). cbn. clear E. generalize (Some element). revert sw1.
    induction IH as [|e inner He _ IHinner]; intros sw1 parent'; cbn [walk]; [done|].
    destruct (visit h1 parent' e sw1) as [sw2| |] eqn:E2; [|done..].
    rewrite (He _ _ _ E2). cbn. by apply IHinner. }
  induction elements as [|e rest IH]; intros parent sw sw'; cbn [walk]; [done|].
  destruct (visit h1 parent e sw) as [sw1| |] eqn:E; [|done..].
  rewrite (Hvisit _ _ _ _ E). cbn. apply IH.
Qed.

Lemma importHandlers_refines (import1 import2 : Writer -> string -> Outcome Writer) :
  (forall sw Filename sw', import1 sw Filename = Done sw' -> import2 sw Filename = Done sw') ->
  refines (importHandlers env import1) (importHandlers env import2).
Proof. intros H parent element sw sw'. destruct element; cbn [importHandlers]; auto. Qed.

Lemma Import_S (fuel : nat) (sw : Writer) (Filename : string) :
  Import env (S fuel) sw Filename =
  if excluded Filename then Done sw
  else match loadProtoFile env sw Filename with
       | inr _ => Done sw
       | inl definition =>
           sw' ← walk (importHandlers env (Import env fuel)) None
                   (proto.Elements definition) sw;
           Done (setPackageName sw' (packageName sw))
       end.
Proof. reflexivity. Qed.

Lemma Import_more_fuel (fuel : nat) :
  forall sw Filename sw',
    Import env fuel sw Filename = Done sw' -> Import env (S fuel) sw Filename = Done sw'.
Proof.
  induction fuel as [|fuel IH]; intros sw Filename sw'.
  - cbn [Import]. destruct (excluded Filename); [done|].
    by destruct (loadProtoFile env sw Filename).
  - rewrite (Import_S (S fuel)), (Import_S fuel).
    destruct (excluded Filename); [done|].
    destruct (loadProtoFile env sw Filename) as [definition|]; [|done].
    destruct (walk (importHandlers env (Import env fuel)) None _ sw) as [sw1| |] eqn:E;
      [|done..].
    apply (walk_refines _ (importHandlers env (Import env (S fuel)))) in E;
      [|by apply importHandlers_refines].
    by rewrite E.
Qed.

Lemma Import_fuel_le (fuel fuel' : nat) sw Filename sw' :
  (fuel <= fuel')%nat ->
  Import env fuel sw Filename = Done sw' -> Import env fuel' sw Filename = Done sw'.
Proof. induction 1; auto using Import_more_fuel. Qed.

Lemma Handlers_refines (fuel fuel' : nat) :
  (fuel <= fuel')%nat -> refines (Handlers env fuel) (Handlers env fuel').
Proof.
  intros Hle parent element sw sw'. destruct element; cbn [Handlers]; auto.
  by apply Import_fuel_le.
Qed.

(** What [WalkFile] returns under one bound, it returns under every
    larger one. *)
Lemma WalkFile_fuel_le (fuel fuel' : nat) (sw : Writer) (r : Writer * option error) :
  (fuel <= fuel')%nat ->
  WalkFile env fuel sw = Done r -> WalkFile env fuel' sw = Done r.
Proof.
  intros Hle. unfold WalkFile.
  destruct (loadProtoFile env sw (filename sw)) as [definition|]; [|done].
  destruct (walk (Handlers env fuel) None _ sw) as [sw1| |] eqn:E; [|done..].
  by rewrite (walk_refines _ _ (Handlers_refines _ _ Hle) _ _ _ _ E).
Qed.

End Fuel.

(** Where C7 holds. A root file that loads, declares a package (which
    is what sets the path table) and whose walk ends with no path
    entry: [WalkFile] returns [ErrNoServiceDefinition], under the bound
    on the imports that let the walk end and under every larger one;
    and [ErrNoServiceDefinition] is no error of the loader. *)
Theorem WalkFile_no_service_definition (env : Env) (fuel : nat) (sw sw' : Writer)
    (definition : proto.Proto) (name : string) :
  loadProtoFile env sw (filename sw) = inl definition ->
  proto.Package name ∈ proto.Elements definition ->
  walk (Handlers env fuel) None (proto.Elements definition) sw = Done sw' ->
  pathEntries sw' = ∅ ->
  (forall fuel' : nat, (fuel <= fuel')%nat ->
     WalkFile env fuel' sw = Done (sw', Some ErrNoServiceDefinition))
  /\ forall msg, ErrNoServiceDefinition <> LoadError msg.
Proof.
  intros Hload Hpackage Hwalk Hempty. split; [|done].
  intros fuel' Hle. apply (WalkFile_fuel_le env fuel fuel'); [done|].
  unfold WalkFile. rewrite Hload, Hwalk. cbn.
  rewrite countPaths_empty; [done| |done].
  by eapply walk_package_pathsSet.
Qed.

(** empty_service.proto: a package and a service without RPCs. *)
Lemma WalkFile_no_service_definition_witness :
  let sw := NewWriter "empty_service.proto" "api.example.com" "" "1.0" "sdk.ts" "" "templates" in
  let sw' := Service (Package Sample.env sw "orders") None "OrderService" in
  loadProtoFile Sample.env sw (filename sw) = inl Sample.empty_service_proto
  /\ proto.Package "orders" ∈ proto.Elements Sample.empty_service_proto
  /\ walk (Handlers Sample.env 0) None (proto.Elements Sample.empty_service_proto) sw = Done sw'
  /\ pathEntries sw' = ∅
  /\ (forall fuel' : nat, (0 <= fuel')%nat ->
        WalkFile Sample.env fuel' sw = Done (sw', Some ErrNoServiceDefinition))
  /\ forall msg, ErrNoServiceDefinition <> LoadError msg.
Proof.
  split; [reflexivity|]. split; [apply list_elem_of_here|].
  split; [reflexivity|]. split; [reflexivity|].
  apply (WalkFile_no_service_definition Sample.env 0 _ _ Sample.empty_service_proto "orders");
    [reflexivity | apply list_elem_of_here | reflexivity | reflexivity].
Defined.

(** C7, where the code goes wrong: bare_service.proto, a service
    without RPCs and no package.  The file loads and the walk ends with
    no path entry, which is the empty result; but [WalkFile] does not
    return [ErrNoServiceDefinition]: the test of the empty result reads
    the length of the path table through a pointer that only a package
    declaration sets, and panics. *)
Lemma WalkFile_without_package :
  let sw := NewWriter "bare_service.proto" "api.example.com" "" "1.0" "sdk.ts" "" "templates" in
  loadProtoFile Sample.env sw (filename sw) = inl Sample.bare_service_proto
  /\ (exists sw', walk (Handlers Sample.env 0) None
                    (proto.Elements Sample.bare_service_proto) sw = Done sw'
                  /\ pathEntries sw' = ∅)
  /\ WalkFile Sample.env 0 sw = Panic nilDereference
  /\ ~ exists sw', WalkFile Sample.env 0 sw = Done (sw', Some ErrNoServiceDefinition).
Proof.
  split; [reflexivity|]. split; [eexists; split; reflexivity|].
  split; [reflexivity|]. by intros [sw' H].
Qed.

(** ** Fields *)

Lemma x_order_key (env : Env) (value : spec.ExtValue) :
  ExtensionsAdd env ∅ "x-order" value = {[ "x-order" := value ]}.
Proof. unfold ExtensionsAdd. by rewrite insert_empty. Qed.

(** [addField] stores one schema, under the name of the field, and
    appends the name to the order list; the schema does not depend on
    what was stored before. *)
Lemma addField_stores (env : Env) (pkg : string) (acc : fields) (f : proto.Field)
    (key : string) (rep : bool) (i : Z) :
  exists s,
    fieldSchema env pkg f key rep i = Some s
    /\ addField env pkg acc f key rep i =
       mkFields (<[proto.FieldName f := s]> (schemaProps acc))
                (fieldOrder acc ++ [proto.FieldName f]).
Proof.
  unfold fieldSchema, addField.
  repeat case_match; cbn [schemaProps fieldOrder];
    eexists; (split; [apply lookup_insert_eq | reflexivity]).
Qed.

Lemma unpackOneofs_app (Elements : list proto.Visitee) :
  unpackOneofs Elements = Elements ++ flat_map oneofMembers Elements.
Proof.
  unfold unpackOneofs. generalize Elements at 2 3 as allFields.
  induction Elements as [|element rest IH]; intros allFields; cbn [fold_left flat_map].
  - by rewrite app_nil_r.
  - rewrite IH. destruct element; cbn [oneofMembers]; by rewrite ?app_nil_r, <- ?app_assoc.
Qed.

Lemma addFields_order (env : Env) (pkg : string) (allFields : list proto.Visitee) :
  forall (i : Z) (acc : fields),
    fieldOrder (addFields env pkg i allFields acc) = fieldOrder acc ++ fieldNames allFields.
Proof.
  induction allFields as [|element rest IH]; intros i acc; cbn [addFields].
  - by rewrite app_nil_r.
  - rewrite IH. unfold fieldNames. cbn [omap]. unfold fieldNameOf at 2.
    destruct element; cbn [fieldOf]; try done;
      match goal with
      | |- context [addField env pkg acc ?f ?k ?r i] =>
          destruct (addField_stores env pkg acc f k r i) as (s & _ & ->)
      end; cbn [fieldOrder]; by rewrite <- app_assoc.
Qed.

(** The order list of a message: its fields, then the members of its
    one-of blocks. *)
Lemma messageFields_order (env : Env) (pkg : string) (Elements : list proto.Visitee) :
  fieldOrder (messageFields env pkg Elements) = appendedOrder Elements.
Proof.
  unfold messageFields, appendedOrder. rewrite addFields_order, unpackOneofs_app.
  unfold fieldNames. by rewrite omap_app.
Qed.

(** ** Trimming *)

Lemma rev_app_append (a b acc : string) :
  String.rev_app (a +:+ b) acc = String.rev_app b (String.rev_app a acc).
Proof. revert acc. induction a as [|x a IH]; intros acc; [done|]. apply IH. Qed.

Lemma rev_app_rev_app (s a b : string) :
  String.rev_app (String.rev_app s a) b = String.rev_app a (s +:+ b).
Proof. revert a b. induction s as [|x s IH]; intros a b; [done|]. cbn. by rewrite IH. Qed.

Lemma rev_involutive (s : string) : String.rev (String.rev s) = s.
Proof. unfold String.rev. by rewrite rev_app_rev_app, append_nil_r. Qed.

Lemma rev_snoc (x : string) (c : ascii) :
  String.rev (x +:+ String c "") = String c (String.rev x).
Proof. unfold String.rev. by rewrite rev_app_append. Qed.

Lemma occurs_rev_app (c : ascii) (s acc : string) :
  occurs c (String.rev_app s acc) = occurs c s || occurs c acc.
Proof.
  revert acc. induction s as [|x s IH]; intros acc; [done|].
  cbn. rewrite IH. cbn. by destruct (Ascii.eqb c x), (occurs c s), (occurs c acc).
Qed.

Lemma occurs_rev (c : ascii) (s : string) : occurs c (String.rev s) = occurs c s.
Proof. unfold String.rev. by rewrite occurs_rev_app, orb_false_r. Qed.

Section Trim.

Import Strings.

(** A string that begins with a byte of no space loses nothing. *)
Lemma dropPrefix_head (c : ascii) (r w : string) :
  w <> "" -> occurs c w = false -> dropPrefix (String c r) w = None.
Proof.
  destruct w as [|p ps]; [done|]. intros _. cbn.
  intros [Hp _]%orb_false_elim. by rewrite Hp.
Qed.

Lemma stripOne_head (c : ascii) (r : string) (spaces : list string) :
  Forall (fun w => w <> "" /\ occurs c w = false) spaces ->
  stripOne spaces (String c r) = None.
Proof.
  induction 1 as [|w ws [Hw Hc] _ IH]; [done|].
  cbn [stripOne]. by rewrite dropPrefix_head.
Qed.

Lemma trimLeading_head (c : ascii) (r : string) (spaces : list string) (fuel : nat) :
  Forall (fun w => w <> "" /\ occurs c w = false) spaces ->
  trimLeading spaces fuel (String c r) = String c r.
Proof. intros H. destruct fuel; [done|]. cbn [trimLeading]. by rewrite stripOne_head. Qed.

(** What is taken off the front of a string stops before a byte of no
    space. *)
Lemma dropPrefix_before (b : ascii) (t w : string) :
  occurs b w = false ->
  forall d rest, dropPrefix (d +:+ String b t) w = Some rest ->
                 exists d1, rest = d1 +:+ String b t.
Proof.
  induction w as [|p ps IH]; intros Hb d rest.
  - cbn. intros [= <-]. by exists d.
  - cbn in Hb. apply orb_false_elim in Hb as [Hp Hps].
    destruct d as [|x d]; rewrite ?append_nil_l, ?append_cons; cbn [dropPrefix].
    + by rewrite Hp.
    + destruct (Ascii.eqb x p); [|done]. by apply IH.
Qed.

Lemma stripOne_before (b : ascii) (t : string) (spaces : list string) :
  Forall (fun w => occurs b w = false) spaces ->
  forall d rest, stripOne spaces (d +:+ String b t) = Some rest ->
                 exists d1, rest = d1 +:+ String b t.
Proof.
  induction 1 as [|w ws Hw _ IH]; intros d rest; [done|].
  cbn [stripOne]. destruct (dropPrefix _ w) as [r|] eqn:E.
  - intros [= <-]. by eapply dropPrefix_before.
  - apply IH.
Qed.

Lemma trimLeading_before (b : ascii) (t : string) (spaces : list string) (fuel : nat) :
  Forall (fun w => occurs b w = false) spaces ->
  forall d, exists d1, trimLeading spaces fuel (d +:+ String b t) = d1 +:+ String b t.
Proof.
  intros H. induction fuel as [|fuel IH]; intros d; [by exists d|].
  cbn [trimLeading]. destruct (stripOne spaces _) as [rest|] eqn:E; [|by exists d].
  destruct (stripOne_before b t spaces H d rest E) as [d1 ->]. apply IH.
Qed.

Lemma spaceRunes_nonempty : Forall (fun w => w <> "") spaceRunes.
Proof. apply (bool_decide_unpack _). by vm_compute. Qed.

Lemma outsideSpaces_Forall (c : ascii) :
  outsideSpaces c = true -> Forall (fun w => occurs c w = false) spaceRunes.
Proof.
  unfold outsideSpaces. rewrite forallb_forall. intros H.
  apply Forall_forall. intros w Hw%list_elem_of_In. by apply negb_true_iff, H.
Qed.

Lemma TrimLeftSpace_before (b : ascii) (t d : string) :
  outsideSpaces b = true ->
  exists d1, TrimLeftSpace (d +:+ String b t) = d1 +:+ String b t.
Proof. intros H. apply trimLeading_before. by apply outsideSpaces_Forall. Qed.

Lemma TrimRightSpace_after (c : ascii) (x : string) :
  outsideSpaces c = true ->
  TrimRightSpace (x +:+ String c "") = x +:+ String c "".
Proof.
  intros H. unfold TrimRightSpace. rewrite rev_snoc, trimLeading_head.
  - by rewrite <- rev_snoc, rev_involutive.
  - apply Forall_fmap, Forall_forall. intros w Hw. cbn. split.
    + intros E. apply (f_equal String.rev) in E. rewrite rev_involutive in E.
      pose proof spaceRunes_nonempty as Hne. rewrite Forall_forall in Hne.
      by apply (Hne w).
    + rewrite occurs_rev. apply outsideSpaces_Forall in H.
      rewrite Forall_forall in H. by apply H.
Qed.

(** [TrimSpace] keeps a text that begins and ends with bytes of no
    space, whatever precedes it. *)
Lemma TrimSpace_keeps (b c : ascii) (t d : string) :
  outsideSpaces b = true -> outsideSpaces c = true ->
  exists d1, TrimSpace (d +:+ String b (t +:+ String c "")) = d1 +:+ String b (t +:+ String c "").
Proof.
  intros Hb Hc. unfold TrimSpace.
  destruct (TrimLeftSpace_before b (t +:+ String c "") d Hb) as [d1 ->].
  exists d1.
  replace (d1 +:+ String b (t +:+ String c "")) with ((d1 +:+ String b t) +:+ String c "")
    by (by rewrite append_assoc).
  by apply TrimRightSpace_after.
Qed.

Lemma Join_last (names : list string) (sep name : string) :
  last names = Some name -> exists before, Join names sep = before +:+ name.
Proof.
  induction names as [|n [|n' rest] IH]; [done| |].
  - intros [= ->]. by exists "".
  - intros H. destruct (IH H) as [before Hb]. exists (n +:+ sep +:+ before).
    cbn [Join] in *. by rewrite Hb, !append_assoc.
Qed.

Lemma lastByte_snoc (s : string) (c : ascii) :
  lastByte s = Some c -> exists before, s = before +:+ String c "".
Proof.
  induction s as [|x [|y s] IH]; [done| |].
  - intros [= ->]. by exists "".
  - intros H. destruct (IH H) as [before Hb]. exists (String x before).
    by rewrite append_cons, <- Hb.
Qed.

End Trim.

(** ** The order of the fields *)

(** C2, as the code has it. For a message with at least one field, the
    description of the definition is the description of the comment,
    an empty line, and the line "Fields: " with the names in the order
    of the order list, trimmed: the fields that are elements of the
    message, in declaration order, and after them the members of its
    one-of blocks, block by block.  When the last name ends with a byte
    of no space, the description ends with that line. *)
Theorem Message_description_lists_fields (env : Env) (pkg : string)
    (Doc : option proto.Comment) (Elements : list proto.Visitee) :
  appendedOrder Elements <> [] ->
  spec.Description (messageSchema env pkg Doc Elements) =
    Strings.TrimSpace
      (description Doc +:+ LF +:+ LF +:+ "Fields: "
         +:+ Strings.Join (appendedOrder Elements) ", ")
  /\ forall (name : string) (c : ascii),
       last (appendedOrder Elements) = Some name ->
       lastByte name = Some c ->
       outsideSpaces c = true ->
       exists before,
         spec.Description (messageSchema env pkg Doc Elements) =
         before +:+ "Fields: " +:+ Strings.Join (appendedOrder Elements) ", ".
Proof.
  intros Hne.
  assert (Hdesc : spec.Description (messageSchema env pkg Doc Elements) =
    Strings.TrimSpace
      (description Doc +:+ LF +:+ LF +:+ "Fields: "
         +:+ Strings.Join (appendedOrder Elements) ", ")).
  { unfold messageSchema. rewrite messageFields_order.
    destruct (comment Doc) as [title example]. cbn [spec.Description].
    destruct (appendedOrder Elements); [done|]. done. }
  split; [done|].
  intros name c Hlast Hbyte Hc. rewrite Hdesc.
  destruct (Join_last _ ", " _ Hlast) as [joined ->].
  destruct (lastByte_snoc _ _ Hbyte) as [start ->].
  replace (description Doc +:+ LF +:+ LF +:+ "Fields: " +:+ joined +:+ start +:+ String c "")
    with ((description Doc +:+ LF +:+ LF)
            +:+ String "F" (("ields: " +:+ joined +:+ start) +:+ String c ""))
    by (by rewrite !append_assoc).
  destruct (TrimSpace_keeps "F" c ("ields: " +:+ joined +:+ start)
              (description Doc +:+ LF +:+ LF) eq_refl Hc) as [before ->].
  exists before. by rewrite !append_assoc.
Qed.

(** Parcel, whose one-of block comes first: the last name is courier,
    which ends with the letter r. *)
Lemma Message_description_lists_fields_witness :
  appendedOrder Sample.parcel_elements <> []
  /\ last (appendedOrder Sample.parcel_elements) = Some "courier"
  /\ lastByte "courier" = Some "r"%char
  /\ outsideSpaces "r" = true
  /\ spec.Description (messageSchema Sample.env "shop" None Sample.parcel_elements) =
       Strings.TrimSpace
         (description None +:+ LF +:+ LF +:+ "Fields: "
            +:+ Strings.Join (appendedOrder Sample.parcel_elements) ", ")
  /\ exists before,
       spec.Description (messageSchema Sample.env "shop" None Sample.parcel_elements) =
       before +:+ "Fields: " +:+ Strings.Join (appendedOrder Sample.parcel_elements) ", ".
Proof.
  destruct (Message_description_lists_fields Sample.env "shop" None Sample.parcel_elements)
    as [Hdescription Hends]; [discriminate|].
  split; [discriminate|]. split; [reflexivity|]. split; [reflexivity|].
  split; [reflexivity|]. split; [exact Hdescription|].
  apply (Hends "courier" "r"%char); reflexivity.
Defined.

(** C2 as stated fails. In Parcel the one-of block comes first; its
    member is listed last, not at the place of the block. *)
Lemma Message_oneof_members_listed_last :
  declarationOrder Sample.parcel_elements = ["courier"; "to"]
  /\ spec.Description (messageSchema Sample.env "shop" None Sample.parcel_elements)
     = "Fields: to, courier"
  /\ Strings.HasSuffix
       (spec.Description (messageSchema Sample.env "shop" None Sample.parcel_elements))
       ("Fields: " +:+ Strings.Join (declarationOrder Sample.parcel_elements) ", ")
     = false.
Proof. by vm_compute. Qed.

(** ** The order numbers *)

Lemma addFields_field (env : Env) (pkg : string) (i : Z) (element : proto.Visitee)
    (rest : list proto.Visitee) (acc : fields) (f : proto.Field) (key : string) (rep : bool) :
  fieldOf element = Some (f, key, rep) ->
  addFields env pkg i (element :: rest) acc =
  addFields env pkg (i + 1) rest (addField env pkg acc f key rep i).
Proof. destruct element; cbn [fieldOf]; intros [= <- <- <-] || intros [=]; done. Qed.

Lemma addFields_no_field (env : Env) (pkg : string) (i : Z) (element : proto.Visitee)
    (rest : list proto.Visitee) (acc : fields) :
  fieldOf element = None ->
  addFields env pkg i (element :: rest) acc = addFields env pkg (i + 1) rest acc.
Proof. by destruct element. Qed.

(** Elements that do not declare [name] leave its property alone. *)
Lemma addFields_other (env : Env) (pkg name : string) (allFields : list proto.Visitee) :
  Forall (fun element => fieldNameOf element <> Some name) allFields ->
  forall (i : Z) (acc : fields),
    schemaProps (addFields env pkg i allFields acc) !! name = schemaProps acc !! name.
Proof.
  induction 1 as [|element rest Hname _ IH]; intros i acc; [done|].
  unfold fieldNameOf in Hname.
  destruct (fieldOf element) as [[[f key] rep]|] eqn:E.
  - rewrite (addFields_field _ _ _ _ _ _ _ _ _ E), IH.
    destruct (addField_stores env pkg acc f key rep i) as (s & _ & ->).
    cbn [schemaProps]. apply lookup_insert_ne. congruence.
  - by rewrite (addFields_no_field _ _ _ _ _ _ E), IH.
Qed.

(** The property of a field is the schema [addField] made at its
    position, unless a later element declares the name again. *)
Lemma addFields_lookup (env : Env) (pkg : string) (allFields : list proto.Visitee) :
  forall (start : Z) (acc : fields) (i : nat) (element : proto.Visitee)
         (f : proto.Field) (key : string) (rep : bool),
    allFields !! i = Some element ->
    fieldOf element = Some (f, key, rep) ->
    (forall (j : nat) (later : proto.Visitee),
       (i < j)%nat -> allFields !! j = Some later ->
       fieldNameOf later <> Some (proto.FieldName f)) ->
    schemaProps (addFields env pkg start allFields acc) !! proto.FieldName f =
    fieldSchema env pkg f key rep (start + Z.of_nat i).
Proof.
  induction allFields as [|head rest IH]; intros start acc i element f key rep; [done|].
  destruct i as [|i]; cbn [lookup list_lookup].
  - intros [= ->] Hfield Hlater.
    rewrite (addFields_field _ _ _ _ _ _ _ _ _ Hfield), addFields_other.
    + destruct (addField_stores env pkg acc f key rep start) as (s & Hs & ->).
      cbn [schemaProps]. by rewrite lookup_insert_eq, Z.add_0_r.
    + apply Forall_forall. intros later [j Hj]%list_elem_of_lookup.
      apply (Hlater (S j)); [lia | done].
  - intros Helement Hfield Hlater.
    replace (start + Z.of_nat (S i)) with ((start + 1) + Z.of_nat i) by lia.
    assert (Hrest : forall (j : nat) (later : proto.Visitee),
              (i < j)%nat -> rest !! j = Some later ->
              fieldNameOf later <> Some (proto.FieldName f)).
    { intros j later Hij Hj. apply (Hlater (S j)); [lia | done]. }
    destruct (fieldOf head) as [[[f' key'] rep']|] eqn:E.
    + rewrite (addFields_field _ _ _ _ _ _ _ _ _ E). by eapply IH.
    + rewrite (addFields_no_field _ _ _ _ _ _ E). by eapply IH.
Qed.

(** Two positions with the same order number are the same. *)
Lemma Itoa_inj (a b : Z) : strconv.Itoa a = strconv.Itoa b -> a = b.
Proof.
  unfold strconv.Itoa. intros H.
  assert (Hparse : forall z, NilZero.int_of_string (NilZero.string_of_int (Z.to_int z))
                             = Some (Z.to_int z)).
  { intros z. apply NilZero.isi; destruct z; cbn; try discriminate;
      intros [= E]; by apply Unsigned.to_uint_nonnil in E. }
  apply DecimalZ.to_int_inj.
  pose proof (Hparse a) as Ha. rewrite H, Hparse in Ha. congruence.
Qed.

Lemma xOrder_of_extension (s : spec.Schema) (i : Z) :
  spec.Extensions s = Some (orderExtension i) ->
  xOrder s = Some (spec.ExtString (strconv.Itoa i)).
Proof. unfold xOrder, orderExtension. intros ->. apply lookup_singleton_eq. Qed.

Lemma fieldNames_cons (element : proto.Visitee) (rest : list proto.Visitee) :
  fieldNames (element :: rest) =
  match fieldOf element with
  | Some (f, _, _) => proto.FieldName f :: fieldNames rest
  | None => fieldNames rest
  end.
Proof. unfold fieldNames, fieldNameOf. cbn. by destruct (fieldOf element) as [[[f key] rep]|]. Qed.

Lemma fieldNames_app (a b : list proto.Visitee) :
  fieldNames (a ++ b) = fieldNames a ++ fieldNames b.
Proof. apply omap_app. Qed.










(** ** Repeated fields *)

(** C4, as the code has it. The schema of a repeated field has the type
    "array" and carries the title, the description, the format and the
    order number of the field.  Its items have no title, description,
    format or extension, and the type, reference and additional
    properties of the schema the field has when not repeated.  The
    example, if any, is on the items for a primitive type, and on the
    array for a rich type, whose items are the reference alone. *)
Theorem repeated_field_schema (env : Env) (pkg : string) (acc : fields)
    (f : proto.Field) (i : Z) :
  exists array single item : spec.Schema,
    schemaProps (addField env pkg acc f "" true i) !! proto.FieldName f = Some array
    /\ schemaProps (addField env pkg acc f "" false i) !! proto.FieldName f = Some single
    /\ spec.Type_ array = ["array"]
    /\ spec.Items array = Some item
    /\ spec.Title array = spec.Title single
    /\ spec.Description array = spec.Description single
    /\ spec.Format array = spec.Format single
    /\ spec.Extensions array = Some (orderExtension i)
    /\ spec.Title item = "" /\ spec.Description item = "" /\ spec.Format item = ""
    /\ spec.Type_ item = spec.Type_ single
    /\ spec.Ref item = spec.Ref single
    /\ spec.AdditionalProperties item = spec.AdditionalProperties single
    /\ spec.Items item = None
    /\ spec.Extensions item = None
    /\ (spec.Ref single = "" ->
        spec.Example item = exampleIfAny (proto.FieldComment f)
        /\ spec.Example array = None)
    /\ (spec.Ref single <> "" ->
        spec.Example item = None
        /\ spec.Example array = exampleIfAny (proto.FieldComment f)).
Proof.
  unfold addField, exampleIfAny, orderExtension. rewrite x_order_key.
  destruct (comment (proto.FieldComment f)) as [title example].
  cbn [negb String.eqb snd].
  repeat case_match; simplify_eq; cbn [schemaProps];
    rewrite !lookup_insert_eq; eexists _, _, _;
    (split; [reflexivity|]); (split; [reflexivity|]); cbn;
    split_and!; try done.
Qed.

(** C4 as stated fails. For the repeated field labels, of the rich type
    Label and with the example "fragile", the items are the reference
    alone: they are not the schema of the field when not repeated less
    its title, description and format (that one has the order number and
    the example), and the example is on the array. *)
Lemma repeated_rich_field_example_on_array :
  exists array single item : spec.Schema,
    fieldSchema Sample.env "shop" Sample.labels_field "" true 3 = Some array
    /\ fieldSchema Sample.env "shop" Sample.labels_field "" false 3 = Some single
    /\ spec.Items array = Some item
    /\ item <> withoutHeading single
    /\ exampleIfAny (proto.FieldComment Sample.labels_field) = Some (spec.AnyString "fragile")
    /\ spec.Example item = None
    /\ spec.Example array = Some (spec.AnyString "fragile").
Proof.
  eexists _, _, _. split; [by vm_compute|]. split; [by vm_compute|].
  split; [reflexivity|]. split_and!; by vm_compute.
Qed.

(** ** Map fields *)

(** The additional properties of a map field have the type the table
    gives for the type of the key. *)
Lemma addField_map_additionalProperties (env : Env) (pkg : string) (acc : fields)
    (f : proto.Field) (key : string) (i : Z) (p : typeAlias) :
  key <> "" ->
  typeAliases env !! key = Some p ->
  exists s : spec.Schema,
    schemaProps (addField env pkg acc f key false i) !! proto.FieldName f = Some s
    /\ spec.Type_ s = ["object"]
    /\ spec.AdditionalProperties s =
       Some (spec.mkSchemaOrBool false
               (Some (spec.mkSchema "" "" [AliasType p] "" "" None None None [] None None))).
Proof.
  intros Hkey Halias. unfold addField.
  destruct (comment (proto.FieldComment f)) as [title example].
  apply String.eqb_neq in Hkey. rewrite Hkey, Halias. cbn [negb].
  repeat case_match; simplify_eq; cbn [schemaProps find allowedValues String.eqb] in *;
    try done; rewrite lookup_insert_eq; eexists; by split_and!.
Qed.

(** C1, where the code goes wrong: map<string, int32> counts.  The type
    of the value is int32, which the table maps to "integer"; the
    additional properties of the schema have the type "string", the one
    the table gives for the type of the key. *)
Theorem map_value_type_not_used :
  AliasType <$> typeAliases Sample.env !! proto.FieldType Sample.counts_field = Some "integer"
  /\ fieldSchema Sample.env "shop" Sample.counts_field "string" false 4 =
     Some (spec.mkSchema "" "" ["object"] "" "" None
             (Some (spec.mkSchemaOrBool false
                      (Some (spec.mkSchema "" "" ["string"] "" "" None None None [] None None))))
             None [] None None).
Proof. by vm_compute. Qed.

(** * More properties of the translator *)

(** ** Tags *)

Lemma Service_exists (tags : list spec.Tag) (Name : string) (found : bool) :
  fold_left
    (fun exists_ tag => if String.eqb (spec.TagName tag) Name then true else exists_)
    tags found
  = found || bool_decide (Name ∈ spec.TagName <$> tags).
Proof.
  revert found. induction tags as [|tag tags IH]; intros found; cbn [fold_left fmap list_fmap].
  - by rewrite orb_false_r.
  - rewrite IH. destruct (String.eqb_spec (spec.TagName tag) Name) as [->|Hne].
    + rewrite orb_true_l. symmetry. rewrite orb_true_iff. right.
      apply bool_decide_eq_true. apply list_elem_of_here.
    + destruct found; [done|]. cbn. apply bool_decide_ext.
      rewrite elem_of_cons. split; [by right|]. by intros [E|?]; [destruct Hne|].
Qed.

Lemma Service_tagNames (sw : Writer) (Doc : option proto.Comment) (Name : string) :
  tagNames (Service sw Doc Name) =
  if bool_decide (Name ∈ tagNames sw) then tagNames sw else tagNames sw ++ [Name].
Proof.
  unfold Service, tagNames. rewrite Service_exists. cbn [orb].
  destruct (bool_decide _); cbn; [done|]. by rewrite fmap_app.
Qed.

(** X1. [Service] keeps the tags unique by name: on a writer whose tag
    names are distinct, they are distinct afterwards, and the service is
    among them. *)
Theorem Service_keeps_tags_unique (sw : Writer) (Doc : option proto.Comment) (Name : string) :
  NoDup (tagNames sw) ->
  NoDup (tagNames (Service sw Doc Name)) /\ Name ∈ tagNames (Service sw Doc Name).
Proof.
  intros Hnodup. rewrite Service_tagNames.
  destruct (bool_decide_reflect (Name ∈ tagNames sw)) as [Hin|Hnot]; [done|].
  split.
  - apply NoDup_app. split_and!; [done| |apply NoDup_singleton].
    intros x Hx ->%list_elem_of_singleton. done.
  - apply elem_of_app. right. apply list_elem_of_here.
Qed.

Lemma Service_keeps_tags_unique_witness :
  let sw := Service (Package Sample.env
                       (NewWriter "orders.proto" "api.example.com" "" "1.0" "sdk.ts" "" "templates")
                       "orders") None "OrderService" in
  NoDup (tagNames sw)
  /\ NoDup (tagNames (Service sw None "BillingService"))
  /\ "BillingService" ∈ tagNames (Service sw None "BillingService").
Proof.
  assert (H : NoDup (tagNames
            (Service (Package Sample.env
                       (NewWriter "orders.proto" "api.example.com" "" "1.0" "sdk.ts" "" "templates")
                       "orders") None "OrderService"))).
  { change (NoDup ["OrderService"]). apply NoDup_singleton. }
  split; [exact H|].
  apply (Service_keeps_tags_unique _ None "BillingService" H).
Defined.

(** X2. A service met again changes nothing, whatever its comment: the
    tag keeps the description it got first. *)
Theorem Service_again (sw : Writer) (Doc Doc' : option proto.Comment) (Name : string) :
  Service (Service sw Doc Name) Doc' Name = Service sw Doc Name.
Proof.
  assert (Hin : Name ∈ tagNames (Service sw Doc Name)).
  { rewrite Service_tagNames. destruct (bool_decide_reflect (Name ∈ tagNames sw)); [done|].
    apply elem_of_app. right. apply list_elem_of_here. }
  unfold Service at 1. rewrite Service_exists. cbn [orb].
  fold (tagNames (Service sw Doc Name)). by rewrite (bool_decide_eq_true_2 _ Hin).
Qed.

(** ** Comments *)

Lemma Contains_append_semicolon (a b : string) :
  Strings.Contains (a +:+ b) ";" = Strings.Contains a ";" || Strings.Contains b ";".
Proof.
  induction a as [|c a IH]; [done|].
  by rewrite append_cons, !Contains_cons_semicolon, IH, orb_assoc.
Qed.

Lemma descriptionLine_no_semicolon (line : string) :
  Strings.Contains (descriptionLine line) ";" = false.
Proof.
  unfold descriptionLine.
  destruct (Strings.Contains (Strings.TrimSpace line) ";") eqn:E; [|done].
  destruct (Split_at_first _ E) as (a & b & _ & Ha & ->). done.
Qed.

(** X3. The description of a comment has no semicolon: every line is
    cut at its first one. *)
Theorem description_no_semicolon (Doc : option proto.Comment) :
  Strings.Contains (description Doc) ";" = false.
Proof.
  destruct Doc as [[lines]|]; [|done]. unfold description. cbn [proto.Lines].
  induction lines as [|line [|next rest] IH]; [done| |].
  - apply descriptionLine_no_semicolon.
  - cbn [map Strings.Join] in *.
    by rewrite !Contains_append_semicolon, descriptionLine_no_semicolon, IH.
Qed.

(** X4. Without a semicolon in its first non-blank text, a comment has
    that whole text as title and the empty string as example, which
    [addField] takes for no example; so has the absent comment. *)
Theorem comment_without_semicolon (lines : list string) :
  Strings.Contains (leadingText lines) ";" = false ->
  comment (Some (proto.mkComment lines)) = (leadingText lines, spec.AnyString "")
  /\ notEmptyString (comment (Some (proto.mkComment lines))).2 = false
  /\ comment None = ("", spec.AnyString "").
Proof.
  intros Hno.
  assert (H : comment (Some (proto.mkComment lines)) = (leadingText lines, spec.AnyString "")).
  { unfold comment. cbn [proto.Lines].
    destruct (string_dec (leadingText lines) "") as [Hempty|Hne].
    - rewrite Hempty. pose proof (commentText_leading lines) as Htext.
      unfold leadingText in Hempty.
      destruct (leadingLines lines) as [|l ls] eqn:El.
      + by rewrite Htext.
      + rewrite Htext. unfold leadingText. rewrite El, Hempty. done.
    - rewrite (commentText_length _ Hne), from1_commentText, (Split_without _ Hno). done. }
  by rewrite H.
Qed.

Lemma comment_without_semicolon_witness :
  Strings.Contains (leadingText [" The name of"; " the order"; ""; " Internal; 7"]) ";" = false
  /\ comment (Some (proto.mkComment [" The name of"; " the order"; ""; " Internal; 7"]))
     = (leadingText [" The name of"; " the order"; ""; " Internal; 7"], spec.AnyString "")
  /\ notEmptyString
       (comment (Some (proto.mkComment [" The name of"; " the order"; ""; " Internal; 7"]))).2
     = false
  /\ comment None = ("", spec.AnyString "").
Proof.
  split; [reflexivity|].
  apply (comment_without_semicolon [" The name of"; " the order"; ""; " Internal; 7"]).
  reflexivity.
Defined.

(** X5. For a comment of one line, title and description are the same
    text: the trimmed line up to its first semicolon. *)
Theorem one_line_title_is_description (line : string) :
  (comment (Some (proto.mkComment [line]))).1 = description (Some (proto.mkComment [line])).
Proof.
  unfold description, comment. cbn [proto.Lines map Strings.Join commentText].
  unfold descriptionLine.
  destruct (String.eqb_spec (Strings.TrimSpace line) "") as [->|Hne]; [done|].
  rewrite append_nil_l.
  assert (Hlen : (1 <? String.length (" " +:+ Strings.TrimSpace line))%nat = true).
  { apply Nat.ltb_lt. rewrite length_append.
    destruct (Strings.TrimSpace line); [done|]. cbn. lia. }
  rewrite Hlen. change (from1 (" " +:+ Strings.TrimSpace line)) with (Strings.TrimSpace line).
  destruct (Strings.Contains (Strings.TrimSpace line) ";") eqn:E.
  - destruct (Split_at_first _ E) as (a & b & _ & _ & ->).
    destruct (Split_head b) as (piece & tail & more & -> & _). done.
  - by rewrite (Split_without _ E).
Qed.

(** ** What the handlers leave alone *)

Lemma onlyDefinitions_refl (sw : Writer) : onlyDefinitions sw sw.
Proof. by split_and!. Qed.

Lemma onlyDefinitions_trans (a b c : Writer) :
  onlyDefinitions a b -> onlyDefinitions b c -> onlyDefinitions a c.
Proof.
  intros (H1 & H2 & H3) (H4 & H5 & H6). split_and!; [congruence | congruence |].
  by etrans.
Qed.

Lemma assignDefinition_onlyDefinitions (sw s : Writer) (name : string) (schema : spec.Schema) :
  assignDefinition sw name schema = Done s ->
  onlyDefinitions sw s /\ packageName s = packageName sw.
Proof.
  unfold assignDefinition, onlyDefinitions, definitionsOf.
  destruct (spec.Definitions (Swagger sw)) as [defs|] eqn:E; [|done].
  intros [= <-]. cbn. split_and!; try done.
  rewrite dom_insert. set_solver.
Qed.

Lemma Message_onlyDefinitions (env : Env) sw s Doc Name Elements :
  Message env sw Doc Name Elements = Done s ->
  onlyDefinitions sw s /\ packageName s = packageName sw.
Proof. apply assignDefinition_onlyDefinitions. Qed.

Lemma Enum_onlyDefinitions sw s Doc Name Elements :
  Enum sw Doc Name Elements = Done s ->
  onlyDefinitions sw s /\ packageName s = packageName sw.
Proof. unfold Enum. destruct (comment Doc). apply assignDefinition_onlyDefinitions. Qed.

Lemma setPackageName_onlyDefinitions (sw : Writer) (name : string) :
  onlyDefinitions sw (setPackageName sw name).
Proof. by split_and!. Qed.

(** An import changes the definitions and nothing else. *)
Lemma Import_onlyDefinitions (env : Env) (fuel : nat) :
  forall sw s Filename,
    Import env fuel sw Filename = Done s ->
    onlyDefinitions sw s /\ packageName s = packageName sw.
Proof.
  induction fuel as [|fuel IH]; intros sw s Filename.
  - cbn [Import]. destruct (excluded Filename).
    + intros [= <-]. split; [apply onlyDefinitions_refl | done].
    + destruct (loadProtoFile env sw Filename); [done|].
      intros [= <-]. split; [apply onlyDefinitions_refl | done].
  - rewrite Import_S. destruct (excluded Filename).
    + intros [= <-]. split; [apply onlyDefinitions_refl | done].
    + destruct (loadProtoFile env sw Filename) as [definition|].
      2:{ intros [= <-]. split; [apply onlyDefinitions_refl | done]. }
      destruct (walk _ None (proto.Elements definition) sw) as [sw1| |] eqn:E; [|done..].
      cbn. intros [= <-]. split; [|done].
      apply (onlyDefinitions_trans _ sw1); [|apply setPackageName_onlyDefinitions].
      apply (walk_keeps (onlyDefinitions sw)) in E;
        [done| |apply onlyDefinitions_refl].
      intros parent element s1 s2 H1 Hstep.
      apply (onlyDefinitions_trans _ s1); [done|].
      destruct element as [name|file|doc n es|doc n es| | | | | | | | |];
        cbn [importHandlers] in Hstep;
        try (injection Hstep as <-; apply onlyDefinitions_refl).
      * injection Hstep as <-. apply setPackageName_onlyDefinitions.
      * by apply IH in Hstep as [? _].
      * by apply Message_onlyDefinitions in Hstep as [? _].
      * by apply Enum_onlyDefinitions in Hstep as [? _].
Qed.

(** X6. An import that returns has added or replaced definitions, and
    changed nothing else: the package name is the one before the
    import, and paths, tags, info and configuration are as they were;
    no definition is removed.  The services and RPCs of an imported file
    are not looked at. *)
Theorem Import_adds_definitions_only (env : Env) (fuel : nat) (sw sw' : Writer)
    (Filename : string) :
  Import env fuel sw Filename = Done sw' ->
  packageName sw' = packageName sw
  /\ pathEntries sw' = pathEntries sw
  /\ tagNames sw' = tagNames sw
  /\ besidesDefinitions sw' = besidesDefinitions sw
  /\ config sw' = config sw
  /\ dom (definitionsOf sw) ⊆ dom (definitionsOf sw').
Proof.
  intros H. apply Import_onlyDefinitions in H as ((Hdoc & Hconfig & Hdom) & Hname).
  split_and!; try done.
  - unfold pathEntries. by injection Hdoc as _ _ _ _ _ _ _ _ -> _.
  - unfold tagNames. by injection Hdoc as _ _ _ _ _ _ _ _ _ ->.
Qed.

(** shop.proto has read its package and imports types.proto, which
    declares a service too. *)
Lemma Import_adds_definitions_only_witness :
  let sw := Package Shop.env (Shop.writer "shop.proto") "shop" in
  exists sw',
    Import Shop.env 1 sw "types.proto" = Done sw'
    /\ spec.Type_ <$> definitionsOf sw' !! "types.Money" = Some ["object"]
    /\ spec.Enum <$> definitionsOf sw' !! "types.Currency" = Some ["EUR"; "USD"]
    /\ packageName sw' = packageName sw
    /\ pathEntries sw' = pathEntries sw
    /\ tagNames sw' = tagNames sw
    /\ besidesDefinitions sw' = besidesDefinitions sw
    /\ config sw' = config sw
    /\ dom (definitionsOf sw) ⊆ dom (definitionsOf sw').
Proof.
  cbv zeta.
  assert (Hdefs :
    (fun s => (spec.Type_ <$> definitionsOf s !! "types.Money",
               spec.Enum <$> definitionsOf s !! "types.Currency"))
      <$> Import Shop.env 1 (Package Shop.env (Shop.writer "shop.proto") "shop") "types.proto"
    = Done (Some ["object"], Some ["EUR"; "USD"])) by (vm_compute; reflexivity).
  destruct (Import Shop.env 1 (Package Shop.env (Shop.writer "shop.proto") "shop")
              "types.proto") as [s| |] eqn:E; [|discriminate Hdefs..].
  injection Hdefs as Hmoney Hcurrency.
  exists s. split; [reflexivity|]. split; [exact Hmoney|]. split; [exact Hcurrency|].
  exact (Import_adds_definitions_only Shop.env 1 _ s "types.proto" E).
Defined.

(** ** The walk of the root file *)

Lemma walk_app (handle : Handler) parent (l1 l2 : list proto.Visitee) (sw : Writer) :
  walk handle parent (l1 ++ l2) sw = walk handle parent l1 sw ≫= walk handle parent l2.
Proof.
  revert sw. induction l1 as [|e l1 IH]; intros sw; [done|].
  cbn [walk app]. destruct (visit handle parent e sw) as [sw1| |]; cbn; [apply IH|done..].
Qed.

Lemma visit_passive (handle : Handler) parent (element : proto.Visitee) (sw : Writer) :
  contents element = [] ->
  visit handle parent element sw = handle parent element sw.
Proof. intros H. rewrite visit_unfold, H. by destruct (handle parent element sw). Qed.

Lemma walk_passive (env : Env) (fuel : nat) parent (elements : list proto.Visitee)
    (sw : Writer) :
  forallb passive elements = true ->
  walk (Handlers env fuel) parent elements sw = Done sw.
Proof.
  induction elements as [|e rest IH]; [done|]. cbn [forallb walk].
  intros [He Hrest]%andb_true_iff. rewrite visit_passive by (by destruct e).
  destruct e; try done; cbn; by apply IH.
Qed.

(** The handlers of the root file keep the configuration. *)
Lemma Handlers_config (env : Env) (fuel : nat) parent element (sw sw' : Writer) :
  Handlers env fuel parent element sw = Done sw' -> config sw' = config sw.
Proof.
  destruct element as [name|file|doc n es|doc n es| |doc n es|doc n req ret| | | | | |];
    cbn [Handlers]; try (by intros [= <-]).
  - intros H. by apply Import_onlyDefinitions in H as ((_ & ? & _) & _).
  - intros H. by apply Message_onlyDefinitions in H as ((_ & ? & _) & _).
  - intros H. by apply Enum_onlyDefinitions in H as ((_ & ? & _) & _).
  - intros [= <-]. unfold Service. by destruct (negb _).
  - unfold RPC, assignPath. destruct parent as [[]|]; try done.
    destruct (spec.PathsPtr (Swagger sw)) as [ps|]; [|done].
    destruct (spec.PathsOf ps); [|done]. by intros [= <-].
Qed.

Lemma Package_config (env : Env) (sw1 sw2 : Writer) (Name : string) :
  config sw1 = config sw2 -> Package env sw1 Name = Package env sw2 Name.
Proof.
  destruct sw1, sw2. unfold config. cbn. intros [= -> -> -> -> -> -> ->]. reflexivity.
Qed.

(** X7. A package declaration makes the document anew: whatever was
    declared before it in the root file (and did not stop the walk)
    leaves no trace, the walk ends as if the file began with the
    package. *)
Theorem Package_forgets (env : Env) (fuel : nat) (before after : list proto.Visitee)
    (Name : string) (sw sw1 : Writer) :
  walk (Handlers env fuel) None before sw = Done sw1 ->
  walk (Handlers env fuel) None (before ++ proto.Package Name :: after) sw =
  walk (Handlers env fuel) None (proto.Package Name :: after) sw.
Proof.
  intros Hbefore. rewrite walk_app, Hbefore. cbn [mbind Outcome_bind walk].
  rewrite !visit_passive by done. cbn [Handlers mbind Outcome_bind].
  rewrite (Package_config env sw1 sw); [done|].
  apply (walk_keeps (fun s => config s = config sw)) in Hbefore; [done| |done].
  intros parent element s s' Hs Hstep. apply Handlers_config in Hstep. congruence.
Qed.

(** A service declared before the package: it has no tag in the end. *)
Lemma Package_forgets_witness :
  let sw := Shop.writer "shop.proto" in
  walk (Handlers Shop.env 1) None [proto.Service None "EarlyService" []] sw
    = Done (Service sw None "EarlyService")
  /\ walk (Handlers Shop.env 1) None
       ([proto.Service None "EarlyService" []] ++ proto.Package "shop" :: []) sw
     = walk (Handlers Shop.env 1) None (proto.Package "shop" :: []) sw.
Proof.
  split; [reflexivity|].
  apply (Package_forgets Shop.env 1 [proto.Service None "EarlyService" []] [] "shop"
           (Shop.writer "shop.proto") (Service (Shop.writer "shop.proto") None "EarlyService")).
  reflexivity.
Defined.

(** X8. What [WalkFile] returns tells whether there are paths: no
    error with at least one path, [ErrNoServiceDefinition] with none, or
    the error of the loader with the writer untouched. *)
Theorem WalkFile_error_tells_paths (env : Env) (fuel : nat) (sw sw' : Writer)
    (err : option error) :
  WalkFile env fuel sw = Done (sw', err) ->
  (err = None /\ pathEntries sw' <> ∅)
  \/ (err = Some ErrNoServiceDefinition /\ pathEntries sw' = ∅)
  \/ (exists msg, err = Some (LoadError msg) /\ sw' = sw).
Proof.
  unfold WalkFile.
  destruct (loadProtoFile env sw (filename sw)) as [definition|msg].
  2:{ intros [= <- <-]. right. right. by exists msg. }
  destruct (walk _ None _ sw) as [sw1| |]; [|done..]. cbn.
  unfold countPaths, pathEntries.
  destruct (spec.PathsPtr (Swagger sw1)) as [ps|] eqn:Eptr; [|done].
  destruct (spec.PathsOf ps) as [paths|] eqn:Eof; cbn.
  - destruct (Nat.eqb_spec (size paths) 0) as [Hsize|Hsize]; intros [= <- <-];
      rewrite Eptr, Eof; cbn.
    + right. left. split; [done|]. by apply map_size_empty_iff.
    + left. split; [done|]. intros E. apply Hsize. by apply map_size_empty_iff.
  - intros [= <- <-]. rewrite Eptr, Eof. right. left. done.
Qed.

(** shop.proto is translated without error: it has paths. *)
Lemma WalkFile_error_tells_paths_witness :
  exists sw',
    WalkFile Shop.env 1 (Shop.writer "shop.proto") = Done (sw', None)
    /\ pathEntries sw' <> ∅.
Proof.
  assert (Herr : snd <$> WalkFile Shop.env 1 (Shop.writer "shop.proto") = Done None)
    by (vm_compute; reflexivity).
  destruct (WalkFile Shop.env 1 (Shop.writer "shop.proto")) as [[s e]| |] eqn:E;
    [|discriminate Herr..].
  injection Herr as ->. exists s. split; [reflexivity|].
  destruct (WalkFile_error_tells_paths Shop.env 1 _ s None E)
    as [[_ H]|[[H _]|(msg & H & _)]]; [exact H | discriminate H | discriminate H].
Defined.

(** A property the handlers keep on the elements without RPC lasts
    through the walk of such elements. *)
Lemma walk_keeps_withoutRPC (P : Writer -> Prop) (handle : Handler) :
  (forall parent element sw sw',
     withoutRPC element = true -> P sw -> handle parent element sw = Done sw' -> P sw') ->
  forall elements parent sw sw',
    forallb withoutRPC elements = true ->
    P sw -> walk handle parent elements sw = Done sw' -> P sw'.
Proof.
  intros Hh.
  assert (Hvisit : forall element parent sw sw',
    withoutRPC element = true ->
    P sw -> visit handle parent element sw = Done sw' -> P sw').
  { induction element as [element IH] using Visitee_nested_ind.
    intros parent sw sw' Hfree HP. rewrite visit_unfold.
    destruct (handle parent element sw) as [sw1| |] eqn:E; [|done..]. cbn.
    apply Hh in E; [|done..].
    assert (Hinner : forallb withoutRPC (contents element) = true)
      by (by destruct element).
    clear Hfree HP. revert E Hinner. generalize (Some element). revert sw1.
    induction IH as [|e inner He _ IHinner]; intros sw1 parent' HP1; cbn [walk forallb].
    - by intros _ [= <-].
    - intros [He1 Hrest]%andb_true_iff.
      destruct (visit handle parent' e sw1) as [sw2| |] eqn:E2; [|done..]. cbn.
      apply IHinner; [|done]. by eapply He. }
  induction elements as [|e rest IH]; intros parent sw sw'; cbn [walk forallb].
  - by intros _ HP [= <-].
  - intros [He Hrest]%andb_true_iff HP.
    destruct (visit handle parent e sw) as [sw1| |] eqn:E; [|done..]. cbn.
    apply IH; [done|]. by eapply Hvisit.
Qed.

Lemma onlyDefinitions_pathEntries (sw s : Writer) :
  onlyDefinitions sw s -> pathEntries s = pathEntries sw.
Proof. intros (Hdoc & _). unfold pathEntries. by injection Hdoc as _ _ _ _ _ _ _ _ -> _. Qed.

(** Without RPC, the handlers of the root file add no path. *)
Lemma Handlers_withoutRPC_no_path (env : Env) (fuel : nat) parent element (sw sw' : Writer) :
  withoutRPC element = true ->
  pathEntries sw = ∅ ->
  Handlers env fuel parent element sw = Done sw' ->
  pathEntries sw' = ∅.
Proof.
  intros Hfree Hempty.
  destruct element as [name|file|doc n es|doc n es| |doc n es|doc n req ret| | | | | |];
    cbn [Handlers]; try (by intros [= <-]); try done.
  - intros H. apply Import_onlyDefinitions in H as [H _].
    by rewrite (onlyDefinitions_pathEntries _ _ H).
  - intros H. apply Message_onlyDefinitions in H as [H _].
    by rewrite (onlyDefinitions_pathEntries _ _ H).
  - intros H. apply Enum_onlyDefinitions in H as [H _].
    by rewrite (onlyDefinitions_pathEntries _ _ H).
  - intros [= <-]. unfold Service. by destruct (negb _).
Qed.

(** X9. A root file that declares a package and has no RPC, at any
    depth, whatever it imports: if its walk ends, [WalkFile] returns
    [ErrNoServiceDefinition] (under every larger bound on the imports
    too). *)
Theorem file_without_RPC_is_empty_result (env : Env) (fuel : nat) (sw sw' : Writer)
    (definition : proto.Proto) (name : string) :
  pathEntries sw = ∅ ->
  loadProtoFile env sw (filename sw) = inl definition ->
  proto.Package name ∈ proto.Elements definition ->
  forallb withoutRPC (proto.Elements definition) = true ->
  walk (Handlers env fuel) None (proto.Elements definition) sw = Done sw' ->
  forall fuel' : nat, (fuel <= fuel')%nat ->
    WalkFile env fuel' sw = Done (sw', Some ErrNoServiceDefinition).
Proof.
  intros Hempty Hload Hpackage Hfree Hwalk fuel' Hle.
  apply (WalkFile_fuel_le env fuel fuel'); [done|].
  unfold WalkFile. rewrite Hload, Hwalk. cbn.
  rewrite countPaths_empty; [done| |].
  - by eapply walk_package_pathsSet.
  - revert Hwalk. apply (walk_keeps_withoutRPC (fun s => pathEntries s = ∅)); [|done..].
    intros parent element s s'. apply Handlers_withoutRPC_no_path.
Qed.

(** empty_service.proto: a package and a service without RPCs. *)
Lemma file_without_RPC_is_empty_result_witness :
  let sw := Shop.writer "empty_service.proto" in
  pathEntries sw = ∅
  /\ loadProtoFile Shop.env sw (filename sw) = inl Sample.empty_service_proto
  /\ proto.Package "orders" ∈ proto.Elements Sample.empty_service_proto
  /\ forallb withoutRPC (proto.Elements Sample.empty_service_proto) = true
  /\ walk (Handlers Shop.env 0) None (proto.Elements Sample.empty_service_proto) sw
     = Done (Service (Package Shop.env sw "orders") None "OrderService")
  /\ forall fuel' : nat, (0 <= fuel')%nat ->
       WalkFile Shop.env fuel' sw
       = Done (Service (Package Shop.env sw "orders") None "OrderService",
               Some ErrNoServiceDefinition).
Proof.
  split; [reflexivity|]. split; [reflexivity|]. split; [apply list_elem_of_here|].
  split; [reflexivity|]. split; [reflexivity|].
  apply (file_without_RPC_is_empty_result Shop.env 0 _ _ Sample.empty_service_proto "orders");
    [reflexivity | reflexivity | apply list_elem_of_here | reflexivity | reflexivity].
Defined.

(** X10. A root file in which a message or an enum comes before any
    package declaration, after comments, syntax and options only: the
    definitions are not made yet, and [WalkFile], on a new writer,
    panics on the assignment. *)
Theorem definition_before_package_panics (env : Env) (fuel : nat)
    (root hostname prefix version sdkfiles protoDir templateDir : string)
    (before rest : list proto.Visitee) (element : proto.Visitee) :
  loadProtoFile env
    (NewWriter root hostname prefix version sdkfiles protoDir templateDir) root
    = inl (proto.mkProto (before ++ element :: rest)) ->
  forallb passive before = true ->
  defining element = true ->
  WalkFile env fuel (NewWriter root hostname prefix version sdkfiles protoDir templateDir)
  = Panic nilMapAssignment.
Proof.
  intros Hload Hbefore Hdefining. unfold WalkFile.
  change (filename (NewWriter root hostname prefix version sdkfiles protoDir templateDir))
    with root.
  rewrite Hload. cbn [proto.Elements].
  rewrite walk_app, walk_passive by done. cbn [mbind Outcome_bind walk].
  rewrite visit_unfold.
  destruct element as [| |doc n es|doc n es| | | | | | | | |]; try done.
  cbn. unfold Enum. by destruct (comment doc).
Qed.

(** early.proto: a syntax statement, a message, and only then the
    package. *)
Lemma definition_before_package_panics_witness :
  loadProtoFile Shop.env (Shop.writer "early.proto") "early.proto"
    = inl (proto.mkProto ([proto.Other] ++ proto.Message None "Order" []
                            :: [proto.Package "shop"]))
  /\ forallb passive [proto.Other] = true
  /\ defining (proto.Message None "Order" []) = true
  /\ WalkFile Shop.env 0 (Shop.writer "early.proto") = Panic nilMapAssignment.
Proof.
  split; [reflexivity|]. split; [reflexivity|]. split; [reflexivity|].
  apply (definition_before_package_panics Shop.env 0 "early.proto" "api.example.com" ""
           "1.0" "sdk_v1.ts,sdk-v1.py" "" "templates"
           [proto.Other] [proto.Package "shop"] (proto.Message None "Order" []));
    reflexivity.
Defined.

(** ** Definitions *)

(** X11. [Message] stores the schema of the message, of type "object",
    under package "." name and leaves the definitions of other names as
    they are; a message (or an enum) defined again under the same name
    replaces it: the last one wins. *)
Theorem Message_defines (env : Env) (sw : Writer) (Doc : option proto.Comment)
    (Name : string) (Elements : list proto.Visitee) (defs : gmap string spec.Schema) :
  spec.Definitions (Swagger sw) = Some defs ->
  exists s : Writer,
    Message env sw Doc Name Elements = Done s
    /\ definitionsOf s =
       <[packageName sw +:+ "." +:+ Name := messageSchema env (packageName sw) Doc Elements]> defs
    /\ spec.Type_ <$> definitionsOf s !! (packageName sw +:+ "." +:+ Name) = Some ["object"]
    /\ (forall other, other <> packageName sw +:+ "." +:+ Name ->
        definitionsOf s !! other = defs !! other)
    /\ (forall Doc' Elements',
          Message env s Doc' Name Elements' = Message env sw Doc' Name Elements'
          /\ Enum s Doc' Name Elements' = Enum sw Doc' Name Elements').
Proof.
  intros Hdefs. unfold Message, Enum, assignDefinition, definitionsOf. rewrite Hdefs.
  eexists. split; [reflexivity|]. cbn. split_and!.
  - done.
  - rewrite lookup_insert_eq. cbn. unfold messageSchema. by destruct (comment Doc).
  - intros other Hother. by rewrite lookup_insert_ne.
  - intros Doc' Elements'. unfold setSwagger, setDefinitions. cbn.
    destruct (comment Doc'). by rewrite !insert_insert_eq.
Qed.

Lemma Message_defines_witness :
  let sw := Package Shop.env (Shop.writer "shop.proto") "shop" in
  spec.Definitions (Swagger sw) = Some ∅
  /\ exists s : Writer,
       Message Shop.env sw None "Order" Sample.shipment_elements = Done s
       /\ definitionsOf s =
          <[packageName sw +:+ "." +:+ "Order" :=
              messageSchema Shop.env (packageName sw) None Sample.shipment_elements]> ∅
       /\ spec.Type_ <$> definitionsOf s !! (packageName sw +:+ "." +:+ "Order") = Some ["object"]
       /\ (forall other, other <> packageName sw +:+ "." +:+ "Order" ->
           definitionsOf s !! other = (∅ : gmap string spec.Schema) !! other)
       /\ (forall Doc' Elements',
             Message Shop.env s Doc' "Order" Elements' = Message Shop.env sw Doc' "Order" Elements'
             /\ Enum s Doc' "Order" Elements' = Enum sw Doc' "Order" Elements').
Proof.
  split; [reflexivity|].
  apply (Message_defines Shop.env (Package Shop.env (Shop.writer "shop.proto") "shop")
           None "Order" Sample.shipment_elements ∅).
  reflexivity.
Defined.

Lemma enumValues_omap (Elements : list proto.Visitee) :
  enumValues Elements = omap enumFieldNameOf Elements.
Proof.
  induction Elements as [|element rest IH]; [done|].
  destruct element; cbn [enumValues omap enumFieldNameOf]; by rewrite ?IH.
Qed.

(** X12. [Enum] stores, under package "." name, a schema of type
    "string" whose allowed values are the names of the fields of the
    enum, in the order of declaration; the other elements of the enum
    (options, comments) give no value. *)
Theorem Enum_defines (sw : Writer) (Doc : option proto.Comment) (Name : string)
    (Elements : list proto.Visitee) (defs : gmap string spec.Schema) :
  spec.Definitions (Swagger sw) = Some defs ->
  exists (s : Writer) (schema : spec.Schema),
    Enum sw Doc Name Elements = Done s
    /\ definitionsOf s = <[packageName sw +:+ "." +:+ Name := schema]> defs
    /\ spec.Type_ schema = ["string"]
    /\ spec.Enum schema = omap enumFieldNameOf Elements
    /\ spec.Title schema = (comment Doc).1
    /\ spec.Description schema = description Doc
    /\ spec.Properties schema = None.
Proof.
  intros Hdefs. unfold Enum, assignDefinition, definitionsOf.
  destruct (comment Doc) as [title example]. rewrite Hdefs.
  eexists _, _. split; [reflexivity|]. cbn. split_and!; try done.
  apply enumValues_omap.
Qed.

Lemma Enum_defines_witness :
  let sw := Package Shop.env (Shop.writer "shop.proto") "shop" in
  spec.Definitions (Swagger sw) = Some ∅
  /\ exists (s : Writer) (schema : spec.Schema),
       Enum sw None "Currency" [proto.EnumField "EUR"; proto.Other; proto.EnumField "USD"]
         = Done s
       /\ definitionsOf s = <[packageName sw +:+ "." +:+ "Currency" := schema]> ∅
       /\ spec.Type_ schema = ["string"]
       /\ spec.Enum schema
          = omap enumFieldNameOf [proto.EnumField "EUR"; proto.Other; proto.EnumField "USD"]
       /\ spec.Title schema = (comment None).1
       /\ spec.Description schema = description None
       /\ spec.Properties schema = None.
Proof.
  split; [reflexivity|].
  apply (Enum_defines (Package Shop.env (Shop.writer "shop.proto") "shop") None "Currency"
           [proto.EnumField "EUR"; proto.Other; proto.EnumField "USD"] ∅).
  reflexivity.
Defined.

(** ** Services *)

(** X13. The operation of an RPC refers to its request and response
    types under the package of the writer, whether or not the type name
    has a package of its own ("types.Money" under the package shop gives
    "#/definitions/shop.types.Money"); the request is the one parameter,
    "body", required; the response is that of status 200; the summary
    is the description of the comment. *)
Theorem RPC_operation (env : Env) (sw : Writer) (serviceDoc : option proto.Comment)
    (S : string) (inner : list proto.Visitee) (Doc : option proto.Comment)
    (Name RequestType ReturnsType : string) (paths : gmap string spec.PathItem) :
  spec.PathsPtr (Swagger sw) = Some (spec.mkPaths (Some paths)) ->
  exists (s : Writer) (operation : spec.Operation) (request response : spec.Schema),
    RPC env sw (Some (proto.Service serviceDoc S inner)) Doc Name RequestType ReturnsType
      = Done s
    /\ pathEntries s !! pathName env (packageName sw) S Name
       = Some (spec.mkPathItem (Some operation))
    /\ spec.Summary operation = description Doc
    /\ spec.Params operation = [spec.mkParam "body" "body" true (Some request)]
    /\ spec.Ref request = "#/definitions/" +:+ packageName sw +:+ "." +:+ RequestType
    /\ spec.StatusCodeResponses operation
       = {[ 200 := spec.mkResponse "A successful response." (Some response) ]}
    /\ spec.Ref response = "#/definitions/" +:+ packageName sw +:+ "." +:+ ReturnsType
    /\ definitionsOf s = definitionsOf sw
    /\ tagNames s = tagNames sw.
Proof.
  intros Hpaths. unfold RPC, assignPath. rewrite Hpaths. cbn [spec.PathsOf].
  eexists _, _, _, _. split; [reflexivity|].
  unfold pathEntries. cbn. rewrite lookup_insert_eq. split_and!; done.
Qed.

Lemma RPC_operation_witness :
  let sw := Package Shop.env (Shop.writer "shop.proto") "shop" in
  spec.PathsPtr (Swagger sw) = Some (spec.mkPaths (Some ∅))
  /\ exists (s : Writer) (operation : spec.Operation) (request response : spec.Schema),
       RPC Shop.env sw (Some (proto.Service None "ShopService" [])) None
         "Buy" "Order" "types.Money" = Done s
       /\ pathEntries s !! pathName Shop.env (packageName sw) "ShopService" "Buy"
          = Some (spec.mkPathItem (Some operation))
       /\ spec.Summary operation = description None
       /\ spec.Params operation = [spec.mkParam "body" "body" true (Some request)]
       /\ spec.Ref request = "#/definitions/" +:+ packageName sw +:+ "." +:+ "Order"
       /\ spec.StatusCodeResponses operation
          = {[ 200 := spec.mkResponse "A successful response." (Some response) ]}
       /\ spec.Ref response = "#/definitions/" +:+ packageName sw +:+ "." +:+ "types.Money"
       /\ definitionsOf s = definitionsOf sw
       /\ tagNames s = tagNames sw.
Proof.
  split; [reflexivity|].
  apply (RPC_operation Shop.env (Package Shop.env (Shop.writer "shop.proto") "shop")
           None "ShopService" [] None "Buy" "Order" "types.Money" ∅).
  reflexivity.
Defined.

(** The walk of the body of a service: one path for each RPC. *)
Lemma walk_service_body (env : Env) (fuel : nat) (service : proto.Visitee)
    (Doc : option proto.Comment) (S : string) (inner : list proto.Visitee) :
  service = proto.Service Doc S inner ->
  forall (body : list proto.Visitee) (sw : Writer) (paths : gmap string spec.PathItem),
    spec.PathsPtr (Swagger sw) = Some (spec.mkPaths (Some paths)) ->
    forallb inService body = true ->
    exists s : Writer,
      walk (Handlers env fuel) (Some service) body sw = Done s
      /\ dom (pathEntries s) =
         dom paths ∪ list_to_set (pathName env (packageName sw) S <$> omap rpcNameOf body)
      /\ tagNames s = tagNames sw
      /\ definitionsOf s = definitionsOf sw
      /\ packageName s = packageName sw.
Proof.
  intros ->. induction body as [|e body IH]; intros sw paths Hpaths.
  - intros _. exists sw. split; [done|]. unfold pathEntries. rewrite Hpaths. cbn.
    split_and!; try done. apply symmetry, (right_id_L ∅ (∪)).
  - cbn [forallb walk]. intros [He Hbody]%andb_true_iff.
    rewrite visit_passive by (by destruct e).
    destruct e as [| | | | | |doc n req ret| | | | |c|]; try done; cbn [Handlers].
    + unfold RPC, assignPath. rewrite Hpaths. cbn [spec.PathsOf mbind Outcome_bind].
      match goal with
      | |- exists s, walk _ _ _ ?w = _ /\ _ =>
          edestruct (IH w) as (s & Hwalk & Hdom & Htags & Hdefs & Hname);
            [reflexivity|exact Hbody|]
      end.
      exists s. split; [exact Hwalk|]. cbn in Hdom, Htags, Hdefs, Hname.
      split_and!; try done.
      rewrite Hdom, dom_insert_L. cbn [omap rpcNameOf fmap list_fmap list_to_set].
      by rewrite (comm_L (∪) {[_]}), <- (assoc_L (∪)).
    + cbn [mbind Outcome_bind]. by apply IH.
    + cbn [mbind Outcome_bind]. by apply IH.
Qed.

(** X14. A service whose body holds RPCs, comments and options only,
    met when the path table is set: the walk of the service ends; the
    service has its tag, once; there is a path for each of its RPCs,
    beside the paths there were; definitions and package name are
    untouched. *)
Theorem Service_walk (env : Env) (fuel : nat) (parent : option proto.Visitee)
    (Doc : option proto.Comment) (S : string) (body : list proto.Visitee)
    (sw : Writer) (paths : gmap string spec.PathItem) :
  spec.PathsPtr (Swagger sw) = Some (spec.mkPaths (Some paths)) ->
  forallb inService body = true ->
  exists s : Writer,
    visit (Handlers env fuel) parent (proto.Service Doc S body) sw = Done s
    /\ tagNames s = tagNames (Service sw Doc S)
    /\ dom (pathEntries s) =
       dom paths ∪ list_to_set (pathName env (packageName sw) S <$> omap rpcNameOf body)
    /\ definitionsOf s = definitionsOf sw
    /\ packageName s = packageName sw.
Proof.
  intros Hpaths Hbody. rewrite visit_unfold. cbn [Handlers mbind Outcome_bind contents].
  destruct (walk_service_body env fuel _ Doc S body eq_refl body (Service sw Doc S) paths)
    as (s & Hwalk & Hdom & Htags & Hdefs & Hname); [|exact Hbody|].
  { unfold Service. by destruct (negb _). }
  exists s. split; [exact Hwalk|]. split; [exact Htags|].
  assert (Hsame : packageName (Service sw Doc S) = packageName sw
                  /\ definitionsOf (Service sw Doc S) = definitionsOf sw).
  { unfold Service. by destruct (negb _). }
  destruct Hsame as [Hn Hd]. rewrite Hn in Hdom, Hname. rewrite Hd in Hdefs. done.
Qed.

Lemma Service_walk_witness :
  let sw := Package Shop.env (Shop.writer "shop.proto") "shop" in
  let body := [ proto.CommentElement (proto.mkComment [" the RPCs"]);
                proto.RPC None "Buy" "Order" "types.Money";
                proto.RPC None "Cancel" "Order" "Order" ] in
  spec.PathsPtr (Swagger sw) = Some (spec.mkPaths (Some ∅))
  /\ forallb inService body = true
  /\ exists s : Writer,
       visit (Handlers Shop.env 0) None (proto.Service None "ShopService" body) sw = Done s
       /\ tagNames s = tagNames (Service sw None "ShopService")
       /\ dom (pathEntries s) =
          dom (∅ : gmap string spec.PathItem)
          ∪ list_to_set (pathName Shop.env (packageName sw) "ShopService" <$> omap rpcNameOf body)
       /\ definitionsOf s = definitionsOf sw
       /\ packageName s = packageName sw.
Proof.
  split; [reflexivity|]. split; [reflexivity|].
  apply (Service_walk Shop.env 0 None None "ShopService" _
           (Package Shop.env (Shop.writer "shop.proto") "shop") ∅);
    reflexivity.
Defined.

(** ** Fields *)

Lemma addFields_dom (env : Env) (pkg : string) (allFields : list proto.Visitee) :
  forall (i : Z) (acc : fields),
    dom (schemaProps (addFields env pkg i allFields acc)) =
    dom (schemaProps acc) ∪ list_to_set (fieldNames allFields).
Proof.
  induction allFields as [|element rest IH]; intros i acc.
  - cbn. by rewrite (right_id_L ∅ (∪)).
  - rewrite fieldNames_cons.
    destruct (fieldOf element) as [[[f key] rep]|] eqn:E.
    + rewrite (addFields_field _ _ _ _ _ _ _ _ _ E), IH.
      destruct (addField_stores env pkg acc f key rep i) as (s & _ & ->).
      cbn [schemaProps list_to_set]. rewrite dom_insert_L.
      by rewrite (comm_L (∪) {[proto.FieldName f]}), <- (assoc_L (∪)).
    + by rewrite (addFields_no_field _ _ _ _ _ _ E), IH.
Qed.

(** The two field lists hold the same names. *)
Lemma appendedOrder_names (Elements : list proto.Visitee) (name : string) :
  name ∈ appendedOrder Elements <-> name ∈ declarationOrder Elements.
Proof.
  unfold appendedOrder, declarationOrder. rewrite elem_of_app.
  induction Elements as [|element rest IH]; cbn [flat_map].
  - change (fieldNames []) with (@nil string). rewrite elem_of_nil. tauto.
  - rewrite fieldNames_app, !elem_of_app, <- IH.
    change (element :: rest) with ([element] ++ rest). rewrite fieldNames_app, elem_of_app.
    destruct element; cbn [oneofMembers];
      change (fieldNames []) with (@nil string);
      try change (fieldNames [proto.Oneof _ _]) with (@nil string);
      rewrite ?elem_of_nil; tauto.
Qed.

(** X15. The properties of the schema of a message are keyed by the
    names of its fields, those of the members of its one-of blocks
    among them, and by nothing else; two fields of one name share one
    property, though the field list of the description names both. *)
Theorem Message_properties_are_fields (env : Env) (pkg : string)
    (Doc : option proto.Comment) (Elements : list proto.Visitee) :
  exists props : gmap string spec.Schema,
    spec.Properties (messageSchema env pkg Doc Elements) = Some props
    /\ dom props = list_to_set (appendedOrder Elements)
    /\ dom props = list_to_set (declarationOrder Elements)
    /\ (size props <= length (appendedOrder Elements))%nat.
Proof.
  unfold messageSchema. destruct (comment Doc) as [title example]. cbn [spec.Properties].
  eexists. split; [reflexivity|].
  assert (Hdom : dom (schemaProps (messageFields env pkg Elements))
                 = list_to_set (appendedOrder Elements)).
  { unfold messageFields, appendedOrder. rewrite addFields_dom, unpackOneofs_app.
    cbn [schemaProps]. unfold fieldNames.
    by rewrite dom_empty_L, (left_id_L ∅ (∪)), omap_app. }
  split; [exact Hdom|]. split.
  - rewrite Hdom. apply set_eq. intros name.
    rewrite !elem_of_list_to_set. apply appendedOrder_names.
  - rewrite <- size_dom, Hdom.
    generalize (appendedOrder Elements). intros l.
    induction l as [|x l IH]; cbn [list_to_set length].
    + by rewrite size_empty.
    + rewrite size_union_alt, size_singleton.
      assert (Hle : (size (list_to_set l ∖ {[x]} : gset string) <= size (list_to_set l : gset string))%nat)
        by (apply subseteq_size, subseteq_difference_l; reflexivity).
      lia.
Qed.

(** X16. A field whose type, as [addField] has it when it chooses, is
    no JSON type (so not a map whose key type the table has: that one
    is an object) refers to the definition of that type: under the
    name of the type when it holds a dot, under package "." type
    otherwise.  Not repeated, the property is the reference itself,
    with the title, the description and the example of the comment;
    repeated, it is an array whose items are the bare reference.  It
    has no additional properties. *)
Theorem rich_field_reference (env : Env) (pkg : string) (f : proto.Field)
    (key : string) (rep : bool) (i : Z) :
  find allowedValues (storedType env f key).1 = false ->
  exists s : spec.Schema,
    fieldSchema env pkg f key rep i = Some s
    /\ spec.Title s = (comment (proto.FieldComment f)).1
    /\ spec.Description s = description (proto.FieldComment f)
    /\ spec.Example s = exampleIfAny (proto.FieldComment f)
    /\ spec.Format s = ""
    /\ spec.AdditionalProperties s = None
    /\ (if rep
        then spec.Type_ s = ["array"] /\ spec.Ref s = ""
             /\ spec.Items s =
                Some (spec.mkSchema "" "" [] ""
                        (richReference pkg (resolved env (proto.FieldType f)).1)
                        None None None [] None None)
        else spec.Type_ s = [] /\ spec.Items s = None
             /\ spec.Ref s = richReference pkg (resolved env (proto.FieldType f)).1).
Proof.
  unfold fieldSchema, addField, exampleIfAny, richReference, storedType, mapValues, resolved.
  destruct (comment (proto.FieldComment f)) as [title example].
  unfold spec.MustCreateRef. cbn [fst snd].
  destruct (typeAliases env !! proto.FieldType f) as [p|];
    destruct (negb (String.eqb key "")); try destruct (typeAliases env !! key) as [q|];
    cbn [fst snd]; try (change (find allowedValues "object") with true; discriminate);
    intros ->;
    destruct rep, (notEmptyString example);
    try destruct (Strings.Contains (AliasType p) ".");
    try destruct (Strings.Contains (proto.FieldType f) ".");
    cbn [schemaProps negb]; rewrite lookup_insert_eq; eexists; (split; [reflexivity|]);
    cbn; done.
Qed.

(** map<Colour, Label> tags: a map whose key type the table does not
    have is stored as the reference to the type of its values. *)
Lemma rich_field_reference_witness :
  find allowedValues (storedType Sample.env Sample.labels_field "Colour").1 = false
  /\ exists s : spec.Schema,
       fieldSchema Sample.env "orders" Sample.labels_field "Colour" false 3 = Some s
       /\ spec.Title s = (comment (proto.FieldComment Sample.labels_field)).1
       /\ spec.Description s = description (proto.FieldComment Sample.labels_field)
       /\ spec.Example s = exampleIfAny (proto.FieldComment Sample.labels_field)
       /\ spec.Format s = ""
       /\ spec.AdditionalProperties s = None
       /\ spec.Type_ s = [] /\ spec.Items s = None
       /\ spec.Ref s = richReference "orders"
                         (resolved Sample.env (proto.FieldType Sample.labels_field)).1.
Proof.
  split; [reflexivity|].
  apply (rich_field_reference Sample.env "orders" Sample.labels_field "Colour" false 3).
  reflexivity.
Defined.

(** X17. A field that is not repeated and whose type, as [addField]
    has it when it chooses, is a JSON type gets that type and its
    format (for a map whose key type the table has: "object", no
    format, and the additional properties of the key's table entry;
    otherwise the type and format of the table, or the type itself),
    the title and the description of its comment and nothing more: no
    example, whatever the comment holds, and no [x-order]. *)
Theorem scalar_field_schema (env : Env) (pkg : string) (f : proto.Field)
    (key : string) (i : Z) :
  find allowedValues (storedType env f key).1 = true ->
  fieldSchema env pkg f key false i =
  Some (spec.mkSchema (comment (proto.FieldComment f)).1 (description (proto.FieldComment f))
          [(storedType env f key).1] (storedType env f key).2 ""
          None (mapValues env key) None [] None None).
Proof.
  unfold fieldSchema, addField, storedType, mapValues, resolved.
  destruct (comment (proto.FieldComment f)) as [title example]. cbn [fst snd].
  destruct (typeAliases env !! proto.FieldType f) as [p|];
    destruct (negb (String.eqb key "")); try destruct (typeAliases env !! key) as [q|];
    cbn [fst snd]; rewrite ?String.eqb_refl;
    intros ->; cbn [schemaProps]; by rewrite lookup_insert_eq.
Qed.

(** map<string, int32> counts: an object; and int32 id, with an example
    in its comment: an integer without example. *)
Lemma scalar_field_schema_witness :
  let id := proto.mkField (Sample.comment1 " Id; 42") "id" "int32" in
  find allowedValues (storedType Sample.env Sample.counts_field "string").1 = true
  /\ fieldSchema Sample.env "orders" Sample.counts_field "string" false 4 =
     Some (spec.mkSchema "" "" ["object"] "" "" None (mapValues Sample.env "string")
             None [] None None)
  /\ find allowedValues (storedType Sample.env id "").1 = true
  /\ fieldSchema Sample.env "orders" id "" false 0 =
     Some (spec.mkSchema "Id" "Id" ["integer"] "int32" "" None None None [] None None).
Proof.
  intros id.
  split; [reflexivity|].
  split; [exact (scalar_field_schema Sample.env "orders" Sample.counts_field "string" 4 eq_refl)|].
  split; [reflexivity|].
  exact (scalar_field_schema Sample.env "orders" id "" 0 eq_refl).
Defined.

(** ** Nested types *)

Lemma Service_besides (sw : Writer) :
  forall Doc Name, definitionsOf (Service sw Doc Name) = definitionsOf sw.
Proof. intros. unfold Service. by destruct (negb _). Qed.

(** The walk of elements that hold types only, given the property for
    each of them. *)
Lemma walk_types (env : Env) (fuel : nat) (elements : list proto.Visitee) :
  Forall (fun element =>
    forall parent sw defs,
      spec.Definitions (Swagger sw) = Some defs ->
      typesOnly element = true ->
      exists (s : Writer) (defs' : gmap string spec.Schema),
        visit (Handlers env fuel) parent element sw = Done s
        /\ spec.Definitions (Swagger s) = Some defs'
        /\ dom defs' =
           dom defs ∪ list_to_set ((fun n => packageName sw +:+ "." +:+ n) <$> declaredNames element)
        /\ besidesDefinitions s = besidesDefinitions sw
        /\ packageName s = packageName sw) elements ->
  forall parent sw defs,
    spec.Definitions (Swagger sw) = Some defs ->
    forallb typesOnly elements = true ->
    exists (s : Writer) (defs' : gmap string spec.Schema),
      walk (Handlers env fuel) parent elements sw = Done s
      /\ spec.Definitions (Swagger s) = Some defs'
      /\ dom defs' =
         dom defs ∪ list_to_set ((fun n => packageName sw +:+ "." +:+ n)
                                   <$> flat_map declaredNames elements)
      /\ besidesDefinitions s = besidesDefinitions sw
      /\ packageName s = packageName sw.
Proof.
  induction 1 as [|e rest He _ IH]; intros parent sw defs Hdefs; cbn [walk forallb flat_map].
  - intros _. exists sw, defs. split_and!; try done. apply symmetry, (right_id_L ∅ (∪)).
  - intros [Hte Htrest]%andb_true_iff.
    destruct (He parent sw defs Hdefs Hte) as (s1 & defs1 & -> & Hdefs1 & Hdom1 & Hb1 & Hn1).
    cbn [mbind Outcome_bind].
    destruct (IH parent s1 defs1 Hdefs1 Htrest) as (s & defs' & -> & Hdefs' & Hdom & Hb & Hn).
    exists s, defs'. split; [done|]. split; [done|].
    rewrite Hdom, Hdom1, Hn1, Hb, Hb1, Hn, fmap_app, list_to_set_app_L.
    by rewrite (assoc_L (∪)).
Qed.

(** X18. Types are defined flat. The walk of a message or an enum that
    holds types, fields, one-of blocks, comments and options only, when
    the definitions are set, ends; it defines every message and enum
    declared in it, at any depth, under package "." name, without the
    names of the messages around it, and changes nothing else. *)
Theorem nested_types_are_flat (env : Env) (fuel : nat) (element : proto.Visitee) :
  forall (parent : option proto.Visitee) (sw : Writer) (defs : gmap string spec.Schema),
    spec.Definitions (Swagger sw) = Some defs ->
    typesOnly element = true ->
    exists (s : Writer) (defs' : gmap string spec.Schema),
      visit (Handlers env fuel) parent element sw = Done s
      /\ spec.Definitions (Swagger s) = Some defs'
      /\ dom defs' =
         dom defs ∪ list_to_set ((fun n => packageName sw +:+ "." +:+ n) <$> declaredNames element)
      /\ besidesDefinitions s = besidesDefinitions sw
      /\ packageName s = packageName sw.
Proof.
  induction element as [element IH] using Visitee_nested_ind.
  intros parent sw defs Hdefs Htypes. rewrite visit_unfold.
  pose proof (walk_types env fuel (contents element) IH (Some element)) as Hwalk.
  destruct element as [| |doc n inner|doc n inner| | | |n inner| | | | |];
    try done; cbn [Handlers contents declaredNames typesOnly] in *.
  - unfold Message, assignDefinition. rewrite Hdefs. cbn [mbind Outcome_bind].
    edestruct Hwalk as (s & defs' & -> & Hdefs' & Hdom & Hb & Hn); [reflexivity|exact Htypes|].
    exists s, defs'. split; [done|]. split; [done|]. cbn in Hdom, Hb, Hn.
    split_and!; try done.
    rewrite Hdom, dom_insert_L. cbn [fmap list_fmap list_to_set].
    by rewrite (comm_L (∪) {[_]}), <- (assoc_L (∪)).
  - unfold Enum, assignDefinition. destruct (comment doc) as [title example].
    rewrite Hdefs. cbn [mbind Outcome_bind].
    edestruct Hwalk as (s & defs' & -> & Hdefs' & Hdom & Hb & Hn); [reflexivity|exact Htypes|].
    exists s, defs'. split; [done|]. split; [done|]. cbn in Hdom, Hb, Hn.
    split_and!; try done.
    rewrite Hdom, dom_insert_L. cbn [fmap list_fmap list_to_set].
    by rewrite (comm_L (∪) {[_]}), <- (assoc_L (∪)).
  - exists sw, defs. split_and!; try done. apply symmetry, (right_id_L ∅ (∪)).
  - cbn [mbind Outcome_bind]. by apply Hwalk.
  - exists sw, defs. split_and!; try done. apply symmetry, (right_id_L ∅ (∪)).
  - exists sw, defs. split_and!; try done. apply symmetry, (right_id_L ∅ (∪)).
  - exists sw, defs. split_and!; try done. apply symmetry, (right_id_L ∅ (∪)).
  - exists sw, defs. split_and!; try done. apply symmetry, (right_id_L ∅ (∪)).
  - exists sw, defs. split_and!; try done. apply symmetry, (right_id_L ∅ (∪)).
Qed.

Lemma nested_types_are_flat_witness :
  let sw := Package Shop.env (Shop.writer "shop.proto") "shop" in
  let outer :=
    proto.Message None "Order"
      [ proto.NormalField (proto.mkField None "state" "State") false;
        proto.Enum None "State" [ proto.EnumField "OPEN" ];
        proto.Message None "Line" [ proto.Message None "Note" [] ] ] in
  spec.Definitions (Swagger sw) = Some ∅
  /\ typesOnly outer = true
  /\ exists (s : Writer) (defs' : gmap string spec.Schema),
       visit (Handlers Shop.env 0) None outer sw = Done s
       /\ spec.Definitions (Swagger s) = Some defs'
       /\ dom defs' =
          dom (∅ : gmap string spec.Schema)
          ∪ list_to_set ((fun n => packageName sw +:+ "." +:+ n) <$> declaredNames outer)
       /\ besidesDefinitions s = besidesDefinitions sw
       /\ packageName s = packageName sw.
Proof.
  split; [reflexivity|]. split; [reflexivity|].
  apply (nested_types_are_flat Shop.env 0 _ None
           (Package Shop.env (Shop.writer "shop.proto") "shop") ∅);
    reflexivity.
Defined.

(** ** The SDK files *)

Section Sdk.

Import Strings.

(** Replacing a byte by nothing takes it out and leaves the others. *)
Lemma occurs_ReplaceAll_byte (c d : ascii) (s : string) :
  occurs c (ReplaceAll s (String d "") "") = negb (Ascii.eqb c d) && occurs c s.
Proof.
  unfold ReplaceAll. induction s as [|x s IH]; cbn [replaceFrom occurs].
  - by rewrite andb_false_r.
  - cbn [HasPrefix String.length Nat.sub]. rewrite andb_true_r.
    destruct (Ascii.eqb x d) eqn:Exd.
    + apply Ascii.eqb_eq in Exd as ->. rewrite append_nil_l, IH.
      by destruct (Ascii.eqb c d).
    + cbn [occurs]. rewrite IH.
      destruct (Ascii.eqb c d) eqn:Ecd, (Ascii.eqb c x) eqn:Ecx; try done.
      apply Ascii.eqb_eq in Ecd as ->. apply Ascii.eqb_eq in Ecx as ->.
      by rewrite Ascii.eqb_refl in Exd.
Qed.

Lemma dropPrefix_occurs (c : ascii) (w s rest : string) :
  dropPrefix s w = Some rest -> occurs c s = false -> occurs c rest = false.
Proof.
  revert s. induction w as [|p w IH]; intros s; cbn [dropPrefix].
  - by intros [= ->].
  - destruct s as [|x s]; [done|]. destruct (Ascii.eqb x p); [|done].
    cbn [occurs]. intros H [_ Hs]%orb_false_elim. by apply (IH s).
Qed.

Lemma stripOne_occurs (c : ascii) (spaces : list string) (s rest : string) :
  stripOne spaces s = Some rest -> occurs c s = false -> occurs c rest = false.
Proof.
  induction spaces as [|w ws IH]; cbn [stripOne]; [done|].
  destruct (dropPrefix s w) as [r|] eqn:E; [|done].
  intros [= <-]. by apply (dropPrefix_occurs c w s).
Qed.

Lemma trimLeading_occurs (c : ascii) (spaces : list string) (fuel : nat) (s : string) :
  occurs c s = false -> occurs c (trimLeading spaces fuel s) = false.
Proof.
  revert s. induction fuel as [|fuel IH]; intros s Hs; cbn [trimLeading]; [done|].
  destruct (stripOne spaces s) as [rest|] eqn:E; [|done].
  apply IH. by apply (stripOne_occurs c spaces s).
Qed.

(** Trimming brings in no byte. *)
Lemma TrimSpace_occurs (c : ascii) (s : string) :
  occurs c s = false -> occurs c (TrimSpace s) = false.
Proof.
  intros Hs. unfold TrimSpace, TrimRightSpace, TrimLeftSpace.
  rewrite occurs_rev. apply trimLeading_occurs. rewrite occurs_rev.
  by apply trimLeading_occurs.
Qed.

End Sdk.

(** X19. The key of an SDK file holds no dot, no underscore and no
    hyphen, whatever the base name of the file is. *)
Theorem sdkKey_is_plain (env : Env) (f : string) :
  occurs "." (sdkKey env f) = false
  /\ occurs "_" (sdkKey env f) = false
  /\ occurs "-" (sdkKey env f) = false.
Proof.
  unfold sdkKey. split_and!; apply TrimSpace_occurs;
    rewrite !occurs_ReplaceAll_byte; cbn [Ascii.eqb Bool.eqb negb andb]; done.
Qed.

Lemma fold_insert_dom {V : Type} (key : string -> string) (value : string -> V)
    (l : list string) :
  forall m : gmap string V,
    dom (fold_left (fun m f => <[key f := value f]> m) l m)
    = dom m ∪ list_to_set (key <$> l).
Proof.
  induction l as [|f l IH]; intros m; cbn [fold_left fmap list_fmap list_to_set].
  - by rewrite (right_id_L ∅ (∪)).
  - rewrite IH, dom_insert_L.
    by rewrite (comm_L (∪) {[key f]}), <- (assoc_L (∪)).
Qed.

Lemma fold_insert_other {V : Type} (key : string -> string) (value : string -> V)
    (k : string) (l : list string) :
  k ∉ key <$> l ->
  forall m : gmap string V,
    fold_left (fun m f => <[key f := value f]> m) l m !! k = m !! k.
Proof.
  induction l as [|f l IH]; intros Hk m; cbn [fold_left]; [done|].
  cbn [fmap list_fmap] in Hk. apply not_elem_of_cons in Hk as [Hf Hl].
  rewrite IH by done. by apply lookup_insert_ne.
Qed.

(** X20. The map of the SDK files has the keys of the files of the
    writer and no other; the address under the key of a file is the one
    made from that file, unless a later file has the same key: of two
    files with one key, the later one stays. A writer made by
    [NewWriter] has at least one file, so its map is never empty. *)
Theorem mapSdkFiles_keys (env : Env) (sw : Writer) :
  dom (mapSdkFiles env sw) = list_to_set (sdkKey env <$> sdkfiles sw)
  /\ (forall before f after,
        sdkfiles sw = before ++ f :: after ->
        sdkKey env f ∉ sdkKey env <$> after ->
        mapSdkFiles env sw !! sdkKey env f =
        Some (makeGcsUrl env PUBLIC_DOCS_BUCKET [getLabel env (filename sw); version sw; f]))
  /\ (forall name host prefix ver files dir templates,
        sw = NewWriter name host prefix ver files dir templates ->
        exists f, f ∈ sdkfiles sw /\ is_Some (mapSdkFiles env sw !! sdkKey env f)).
Proof.
  pose (value := fun f => makeGcsUrl env PUBLIC_DOCS_BUCKET
                            [getLabel env (filename sw); version sw; f]).
  assert (Hdom : dom (mapSdkFiles env sw)
                 = (list_to_set (sdkKey env <$> sdkfiles sw) : gset string)).
  { unfold mapSdkFiles.
    by rewrite (fold_insert_dom (sdkKey env) value), dom_empty_L, (left_id_L ∅ (∪)). }
  split; [exact Hdom|]. split.
  - intros before f after Hfiles Hlast. unfold mapSdkFiles. rewrite Hfiles.
    rewrite fold_left_app. cbn [fold_left].
    rewrite (fold_insert_other (sdkKey env) value) by done.
    apply lookup_insert_eq.
  - intros name host prefix ver files dir templates Hsw.
    assert (Hne : sdkfiles sw <> []).
    { rewrite Hsw. cbn [sdkfiles NewWriter]. unfold Strings.Split.
      apply splitFrom_nonempty. }
    assert (Hf : exists f, f ∈ sdkfiles sw).
    { destruct (sdkfiles sw) as [|f rest]; [done|]. exists f. apply list_elem_of_here. }
    destruct Hf as [f Hf]. exists f. split; [exact Hf|].
    apply elem_of_dom. rewrite Hdom.
    by apply elem_of_list_to_set, list_elem_of_fmap_2.
Qed.

(** ** The command *)

Section Command.

Context (env : Env).
Context (WriteFile : gmap string string -> string -> string
                     -> gmap string string * option string).

Lemma Save_other (sw : Writer) (disk : gmap string string) (output : string) :
  (forall d n b other, other <> n -> (WriteFile d n b).1 !! other = d !! other) ->
  forall other, other <> output ->
    (Save env WriteFile sw disk output).1 !! other = disk !! other.
Proof.
  intros Hwrite other Hother. unfold Save.
  specialize (Hwrite disk output (Get env sw) other Hother).
  by destruct (WriteFile disk output (Get env sw)) as [d [msg|]].
Qed.

(** X21. The command and its files. When writing a file changes no
    other file, [parse] changes no file but the one the output
    argument names; when it returns the error of equal names or an
    error of the walk, it has written nothing, and an error of the walk
    it returns is never [ErrNoServiceDefinition].  The error of equal
    names is returned when, and only when, the input and output
    arguments are the same string: the path the loader reads, the input
    under the directory of the proto files, is not what is compared. *)
Theorem parse_writes_output_only (fuel : nat) (disk disk' : gmap string string)
    (host input output prefix ver files dir templates : string) (err : option exitError) :
  (forall d n b other, other <> n -> (WriteFile d n b).1 !! other = d !! other) ->
  parse env WriteFile fuel disk host input output prefix ver files dir templates
    = Done (disk', err) ->
  (forall other, other <> output -> disk' !! other = disk !! other)
  /\ (err = Some SameFile <-> input = output)
  /\ (err = Some SameFile -> disk' = disk)
  /\ (forall e, err = Some (WalkFailed e) -> disk' = disk /\ e <> ErrNoServiceDefinition)
  /\ (forall sw e,
        input <> output ->
        WalkFile env fuel (NewWriter input host prefix ver files dir templates)
          = Done (sw, e) ->
        e = None \/ e = Some ErrNoServiceDefinition ->
        (disk', err) = Save env WriteFile sw disk output).
Proof.
  intros Hwrite. unfold parse.
  destruct (String.eqb input output) eqn:Esame.
  { apply String.eqb_eq in Esame. intros [= <- <-]. split_and!; try done. }
  apply String.eqb_neq in Esame.
  destruct (WalkFile env fuel _) as [[sw e]| |]; [|done..]. cbn [mbind Outcome_bind snd fst].
  assert (Hsave : forall d x,
            Save env WriteFile sw disk output = (d, x) ->
            (forall other, other <> output -> d !! other = disk !! other)
            /\ (x = Some SameFile <-> input = output)
            /\ (x = Some SameFile -> d = disk)
            /\ (forall e, x = Some (WalkFailed e) -> d = disk /\ e <> ErrNoServiceDefinition)).
  { intros d x Hs.
    pose proof (Save_other sw disk output Hwrite) as Hother. rewrite Hs in Hother.
    split; [exact Hother|].
    unfold Save in Hs. destruct (WriteFile disk output (Get env sw)) as [d0 [msg|]];
      injection Hs as <- <-; (split_and!; [split; [discriminate|done]|discriminate..]). }
  destruct e as [e|].
  - destruct e; cbn [isErrNoServiceDefinition negb].
    + intros [= H]. destruct (Save env WriteFile sw disk output) as [d x] eqn:Es.
      injection H as <- <-. destruct (Hsave d x eq_refl) as (H1 & H2 & H3 & H4).
      split_and!; try done. intros sw0 e0 _ [= <- <-] _. done.
    + intros [= <- <-]. split_and!.
      * done.
      * split; [discriminate|intros; by destruct Esame].
      * discriminate.
      * by intros e [= <-].
      * intros sw0 e0 _ [= <- <-] [?|?]; done.
    + intros [= <- <-]. split_and!.
      * done.
      * split; [discriminate|intros; by destruct Esame].
      * discriminate.
      * by intros e [= <-].
      * intros sw0 e0 _ [= <- <-] [?|?]; done.
  - intros [= H]. destruct (Save env WriteFile sw disk output) as [d x] eqn:Es.
    injection H as <- <-. destruct (Hsave d x eq_refl) as (H1 & H2 & H3 & H4).
    split_and!; try done. intros sw0 e0 _ [= <- <-] _. done.
Qed.

End Command.

(** shop.proto is read under protos and the output is that very file:
    the arguments differ, the run is not refused and writes over the
    file it read. *)
Lemma parse_writes_output_only_witness :
  let disk : gmap string string := {[ "protos/shop.proto" := "service ShopService" ]} in
  (forall d n b other, other <> n -> (Shop.WriteFile d n b).1 !! other = d !! other)
  /\ loadProtoFile Tree.env
       (NewWriter "shop.proto" "api.example.com" "" "1.0" "sdk_v1.ts" "protos" "templates")
       "shop.proto" = Tree.files "protos/shop.proto"
  /\ parse Tree.env Shop.WriteFile 2 disk "api.example.com" "shop.proto" "protos/shop.proto"
       "" "1.0" "sdk_v1.ts" "protos" "templates"
     = Done (<["protos/shop.proto" := "swagger 2.0"]> disk, None)
  /\ (forall other, other <> "protos/shop.proto" ->
        (<["protos/shop.proto" := "swagger 2.0"]> disk) !! other = disk !! other)
  /\ ((None : option exitError) = Some SameFile <-> "shop.proto" = "protos/shop.proto").
Proof.
  intros disk.
  assert (Hwrite : forall d n b other,
            other <> n -> (Shop.WriteFile d n b).1 !! other = d !! other).
  { intros d n b other Hother. by apply lookup_insert_ne. }
  assert (Hrun : parse Tree.env Shop.WriteFile 2 disk "api.example.com" "shop.proto"
                   "protos/shop.proto" "" "1.0" "sdk_v1.ts" "protos" "templates"
                 = Done (<["protos/shop.proto" := "swagger 2.0"]> disk, None))
    by (vm_compute; reflexivity).
  split; [exact Hwrite|]. split; [reflexivity|]. split; [exact Hrun|].
  destruct (parse_writes_output_only Tree.env Shop.WriteFile 2 disk _ _ _ _ _ _ _ _ _ _
              Hwrite Hrun) as (H1 & H2 & _).
  split; [exact H1|exact H2].
Defined.

(** ** The plugin *)

Lemma generate_toGenerate (env : Env) (fuel : nat) (flags : PluginFlags)
    (files : list PluginFile) :
  forall generated,
    generate env fuel flags files generated
    = generate env fuel flags (toGenerate files) generated.
Proof.
  unfold toGenerate. induction files as [|f rest IH]; intros generated; [done|].
  rewrite filter_cons. destruct (decide (Generate f = true)) as [Hg|Hg].
  - cbn [generate]. rewrite Hg. cbn [negb].
    destruct (checkRequired flags); [done|].
    destruct (WalkFile env fuel _) as [[sw e]| |]; [|done..]. cbn [mbind Outcome_bind snd fst].
    destruct e as [e|]; [destruct (isErrNoServiceDefinition e)|]; done.
  - cbn [generate]. apply not_true_is_false in Hg. rewrite Hg. cbn [negb]. apply IH.
Qed.

(** X22. The plugin passes over the files it is not to generate: they
    are neither loaded nor a reason to check the flags. A run with no
    file to generate succeeds, whatever the flags; with one at least
    and a required flag empty, the run ends on that flag's error with
    nothing generated. *)
Theorem generate_passes_over (env : Env) (fuel : nat) (flags : PluginFlags)
    (files : list PluginFile) (generated : list (string * string)) :
  generate env fuel flags files generated
  = generate env fuel flags (toGenerate files) generated
  /\ (toGenerate files = [] ->
      generate env fuel flags files generated = Done (generated, None))
  /\ (forall err, checkRequired flags = Some err -> toGenerate files <> [] ->
      generate env fuel flags files generated = Done (generated, Some err)).
Proof.
  split; [apply generate_toGenerate|]. split.
  - intros H. by rewrite generate_toGenerate, H.
  - intros err Hflags Hfiles. rewrite generate_toGenerate.
    destruct (toGenerate files) as [|f rest] eqn:E; [done|].
    assert (Hg : Generate f = true).
    { assert (Hin : f ∈ toGenerate files) by (rewrite E; apply list_elem_of_here).
      unfold toGenerate in Hin. by apply list_elem_of_filter in Hin as [? _]. }
    cbn [generate]. by rewrite Hg, Hflags.
Qed.

(** The run of the plugin on files that are all to generate. *)
Lemma generate_selected (env : Env) (fuel : nat) (flags : PluginFlags)
    (files : list PluginFile) :
  Forall (fun f => Generate f = true) files ->
  forall generated : list (string * string),
    (forall out,
       generate env fuel flags files generated = Done (out, None) ->
       out = generated ++ omap (generatedFor env fuel flags) files)
    /\ (forall out e,
          generate env fuel flags files generated = Done (out, Some e) ->
          exists before f after,
            files = before ++ f :: after
            /\ out = generated ++ omap (generatedFor env fuel flags) before
            /\ (checkRequired flags = Some e
                \/ exists sw failure,
                     WalkFile env fuel (pluginWriter flags f) = Done (sw, Some failure)
                     /\ isErrNoServiceDefinition failure = false
                     /\ e = WalkFailed failure))
    /\ (checkRequired flags = None ->
        Forall (fun f => exists sw e,
                  WalkFile env fuel (pluginWriter flags f) = Done (sw, e)
                  /\ (e = None \/ e = Some ErrNoServiceDefinition)) files ->
        generate env fuel flags files generated
        = Done (generated ++ omap (generatedFor env fuel flags) files, None)).
Proof.
  intros Hall. induction Hall as [|f rest Hg _ IH]; intros generated.
  { cbn [generate omap list_omap]. rewrite app_nil_r. split_and!; [|done..].
    by intros out [= <-]. }
  cbn [generate]. rewrite Hg. cbn [negb omap list_omap].
  unfold generatedFor at 1 3 5. fold (pluginWriter flags f).
  destruct (checkRequired flags) as [bad|] eqn:Hflags.
  { split_and!; [done| |done].
    intros out e [= <- <-]. exists [], f, rest. cbn. rewrite app_nil_r. by split_and!; [..|left]. }
  destruct (WalkFile env fuel (pluginWriter flags f)) as [[sw failure]| |] eqn:Ewalk;
    cbn [mbind Outcome_bind snd fst].
  - destruct failure as [failure|].
    + destruct (isErrNoServiceDefinition failure) eqn:Eskip.
      * destruct (IH generated) as (Hok & Herr & Hruns). split_and!.
        -- exact Hok.
        -- intros out e H. destruct (Herr out e H) as (before & g & after & -> & -> & Hwhy).
           exists (f :: before), g, after. cbn [app omap list_omap].
           unfold generatedFor at 2. fold (pluginWriter flags f). rewrite Ewalk.
           by split_and!.
        -- intros _ Hwalks. apply Hruns; [done|]. by inversion Hwalks.
      * split_and!; [done| |].
        -- intros out e [= <- <-]. exists [], f, rest. cbn. rewrite app_nil_r.
           split_and!; [done..|]. right. by exists sw, failure.
        -- intros _ Hwalks. inversion Hwalks as [|? ? (sw0 & e0 & Hw & He) _]; subst.
           rewrite Hw in Ewalk. injection Ewalk as -> ->.
           destruct He as [[=]|[= ->]]. done.
    + destruct (IH (generated ++ [(flagOutDir flags +:+
                                    filepath_Base env (GeneratedFilenamePrefix f)
                                    +:+ flagOutputSuffix flags, Get env sw)]))
        as (Hok & Herr & Hruns).
      split_and!.
      * intros out H. rewrite (Hok out H). by rewrite <- app_assoc.
      * intros out e H. destruct (Herr out e H) as (before & g & after & -> & -> & Hwhy).
        exists (f :: before), g, after. cbn [app omap list_omap].
        unfold generatedFor at 2. fold (pluginWriter flags f). rewrite Ewalk.
        rewrite <- app_assoc. by split_and!.
      * intros _ Hwalks. rewrite Hruns; [|done|by inversion Hwalks].
        by rewrite <- app_assoc.
  - split_and!; [done..|]. intros _ Hwalks.
    inversion Hwalks as [|? ? (sw0 & e0 & Hw & He) _]; subst. by rewrite Hw in Ewalk.
  - split_and!; [done..|]. intros _ Hwalks.
    inversion Hwalks as [|? ? (sw0 & e0 & Hw & He) _]; subst. by rewrite Hw in Ewalk.
Qed.

(** X23. What the plugin generates. A run that returns no error has
    kept the files generated before it and added, in the order of the
    request, one file for each file to generate whose walk returned no
    error, and none for the others: the added file has the document of
    that walk and the name made of the output directory, the base name
    of the file's prefix and the suffix.  A run that returns an error
    has done so for the files to generate before the one it stopped at,
    which is one whose flags fail the check or whose walk returned an
    error other than [ErrNoServiceDefinition].  And the run returns no
    error whenever the flags pass the check and the walk of every file
    to generate returns, with no error or with
    [ErrNoServiceDefinition]. *)
Theorem generate_extends (env : Env) (fuel : nat) (flags : PluginFlags)
    (files : list PluginFile) (generated : list (string * string)) :
  (forall out,
     generate env fuel flags files generated = Done (out, None) ->
     out = generated ++ omap (generatedFor env fuel flags) (toGenerate files))
  /\ (forall out e,
        generate env fuel flags files generated = Done (out, Some e) ->
        exists before f after,
          toGenerate files = before ++ f :: after
          /\ out = generated ++ omap (generatedFor env fuel flags) before
          /\ (checkRequired flags = Some e
              \/ exists sw failure,
                   WalkFile env fuel (pluginWriter flags f) = Done (sw, Some failure)
                   /\ isErrNoServiceDefinition failure = false
                   /\ e = WalkFailed failure))
  /\ (checkRequired flags = None ->
      Forall (fun f => exists sw e,
                WalkFile env fuel (pluginWriter flags f) = Done (sw, e)
                /\ (e = None \/ e = Some ErrNoServiceDefinition)) (toGenerate files) ->
      generate env fuel flags files generated
      = Done (generated ++ omap (generatedFor env fuel flags) (toGenerate files), None)).
Proof.
  rewrite generate_toGenerate. apply generate_selected.
  apply Forall_forall. intros f Hf. unfold toGenerate in Hf.
  by apply list_elem_of_filter in Hf as [? _].
Qed.

(** A request of three files: types.proto is not to generate, shop.proto
    gives a file and empty_service.proto, without RPC, gives none. *)
Lemma generate_extends_witness :
  checkRequired Shop.flags = None
  /\ omap (generatedFor Tree.env 2 Shop.flags) (toGenerate Tree.request)
     = [("out/shop.swagger.json", "swagger 2.0")]
  /\ generate Tree.env 2 Shop.flags Tree.request []
     = Done ([] ++ omap (generatedFor Tree.env 2 Shop.flags) (toGenerate Tree.request), None).
Proof.
  split; [reflexivity|]. split; [vm_compute; reflexivity|].
  apply (generate_extends Tree.env 2 Shop.flags Tree.request []); [reflexivity|].
  repeat constructor.
  - assert (H : snd <$> WalkFile Tree.env 2
                  (pluginWriter Shop.flags (mkPluginFile "shop.proto" true "gen/shop"))
                = Done None) by (vm_compute; reflexivity).
    destruct (WalkFile Tree.env 2 _) as [[sw e]| |]; [|discriminate H..].
    injection H as ->. exists sw, None. by split; [|left].
  - assert (H : snd <$> WalkFile Tree.env 2
                  (pluginWriter Shop.flags
                     (mkPluginFile "empty_service.proto" true "gen/empty_service"))
                = Done (Some ErrNoServiceDefinition)) by (vm_compute; reflexivity).
    destruct (WalkFile Tree.env 2 _) as [[sw e]| |]; [|discriminate H..].
    injection H as ->. exists sw, (Some ErrNoServiceDefinition). by split; [|right].
Defined.

(** ** Imports that come back *)

Lemma walk_importHandlers_onlyDefinitions (env : Env) (fuel : nat) parent
    (elements : list proto.Visitee) (sw s : Writer) :
  walk (importHandlers env (Import env fuel)) parent elements sw = Done s ->
  onlyDefinitions sw s.
Proof.
  intros E. apply (walk_keeps (onlyDefinitions sw)) in E; [done| |apply onlyDefinitions_refl].
  intros parent' element s1 s2 H1 Hstep.
  apply (onlyDefinitions_trans _ s1); [done|].
  destruct element as [name|file|doc n es|doc n es| | | | | | | | |];
    cbn [importHandlers] in Hstep;
    try (injection Hstep as <-; apply onlyDefinitions_refl).
  - injection Hstep as <-. apply setPackageName_onlyDefinitions.
  - by apply Import_onlyDefinitions in Hstep as [? _].
  - by apply Message_onlyDefinitions in Hstep as [? _].
  - by apply Enum_onlyDefinitions in Hstep as [? _].
Qed.

Lemma onlyDefinitions_loadProtoFile (env : Env) (sw s : Writer) (Filename : string) :
  onlyDefinitions sw s -> loadProtoFile env s Filename = loadProtoFile env sw Filename.
Proof.
  intros (_ & Hconfig & _). unfold loadProtoFile.
  by injection Hconfig as _ _ _ _ _ -> _.
Qed.

(** X24. A file that imports itself. There is no guard against import
    cycles: when a file that loads holds, among its top-level elements,
    an import of its own name, [Import] of that file never returns a
    writer, however deep the imports are followed; it goes on until
    the stack is used up, unless an element before the import panics. *)
Theorem self_import_never_returns (env : Env) (Filename : string)
    (definition : proto.Proto) (before after : list proto.Visitee) :
  excluded Filename = false ->
  proto.Elements definition = before ++ proto.Import Filename :: after ->
  forall (fuel : nat) (sw : Writer),
    loadProtoFile env sw Filename = inl definition ->
    Import env fuel sw Filename = OutOfFuel
    \/ exists msg, Import env fuel sw Filename = Panic msg.
Proof.
  intros Hexcluded Helements.
  induction fuel as [|fuel IH]; intros sw Hload.
  - left. cbn [Import]. by rewrite Hexcluded, Hload.
  - rewrite Import_S, Hexcluded, Hload, Helements, walk_app.
    destruct (walk _ None before sw) as [s1| |] eqn:Ebefore; cbn [mbind Outcome_bind].
    + cbn [walk]. rewrite visit_passive by done. cbn [importHandlers].
      apply walk_importHandlers_onlyDefinitions in Ebefore.
      destruct (IH s1) as [-> | [msg ->]].
      * by rewrite (onlyDefinitions_loadProtoFile _ _ _ _ Ebefore).
      * by left.
      * right. by exists msg.
    + right. by eexists.
    + by left.
Qed.

Lemma self_import_never_returns_witness :
  excluded "loop.proto" = false
  /\ proto.Elements Shop.loop_proto = [proto.Package "loop"] ++ proto.Import "loop.proto" :: []
  /\ loadProtoFile Shop.env (Shop.writer "loop.proto") "loop.proto" = inl Shop.loop_proto
  /\ (Import Shop.env 7 (Shop.writer "loop.proto") "loop.proto" = OutOfFuel
      \/ exists msg, Import Shop.env 7 (Shop.writer "loop.proto") "loop.proto" = Panic msg).
Proof.
  split; [reflexivity|]. split; [reflexivity|]. split; [reflexivity|].
  apply (self_import_never_returns Shop.env "loop.proto" Shop.loop_proto
           [proto.Package "loop"] []); reflexivity.
Defined.

(** ** A file without RPC, in the command and in the plugin *)

(** X25. A file whose walk returns [ErrNoServiceDefinition]: the
    command takes the error for no error and saves the document, which
    has no path; the plugin generates nothing for the file and goes on
    with the next. *)
Theorem no_service_command_saves_plugin_skips (env : Env)
    (WriteFile : gmap string string -> string -> string -> gmap string string * option string)
    (fuel : nat) (disk : gmap string string) (flags : PluginFlags)
    (f : PluginFile) (rest : list PluginFile) (output : string)
    (generated : list (string * string)) (sw : Writer) :
  WalkFile env fuel
    (NewWriter (DescPath f) (flagHostname flags) (flagPathPrefix flags) (flagVersion flags)
       (flagSdkFiles flags) (flagProtoDir flags) (flagTemplateDir flags))
    = Done (sw, Some ErrNoServiceDefinition) ->
  DescPath f <> output ->
  Generate f = true ->
  checkRequired flags = None ->
  parse env WriteFile fuel disk (flagHostname flags) (DescPath f) output (flagPathPrefix flags)
    (flagVersion flags) (flagSdkFiles flags) (flagProtoDir flags) (flagTemplateDir flags)
  = Done (Save env WriteFile sw disk output)
  /\ generate env fuel flags (f :: rest) generated = generate env fuel flags rest generated.
Proof.
  intros Hwalk Hdiff Hg Hflags. split.
  - unfold parse. apply String.eqb_neq in Hdiff. by rewrite Hdiff, Hwalk.
  - cbn [generate]. by rewrite Hg, Hflags, Hwalk.
Qed.

Lemma no_service_command_saves_plugin_skips_witness :
  let f := mkPluginFile "empty_service.proto" true "gen/empty_service" in
  exists sw : Writer,
    WalkFile Tree.env 2
      (NewWriter (DescPath f) (flagHostname Shop.flags) (flagPathPrefix Shop.flags)
         (flagVersion Shop.flags) (flagSdkFiles Shop.flags) (flagProtoDir Shop.flags)
         (flagTemplateDir Shop.flags))
      = Done (sw, Some ErrNoServiceDefinition)
    /\ DescPath f <> "empty_service.json"
    /\ Generate f = true
    /\ checkRequired Shop.flags = None
    /\ parse Tree.env Shop.WriteFile 2 ∅ (flagHostname Shop.flags) (DescPath f)
         "empty_service.json" (flagPathPrefix Shop.flags) (flagVersion Shop.flags)
         (flagSdkFiles Shop.flags) (flagProtoDir Shop.flags) (flagTemplateDir Shop.flags)
       = Done (Save Tree.env Shop.WriteFile sw ∅ "empty_service.json")
    /\ generate Tree.env 2 Shop.flags [f] [] = generate Tree.env 2 Shop.flags [] [].
Proof.
  intros f.
  assert (H : snd <$> WalkFile Tree.env 2
                (NewWriter (DescPath f) (flagHostname Shop.flags) (flagPathPrefix Shop.flags)
                   (flagVersion Shop.flags) (flagSdkFiles Shop.flags) (flagProtoDir Shop.flags)
                   (flagTemplateDir Shop.flags))
              = Done (Some ErrNoServiceDefinition))
    by (vm_compute; reflexivity).
  destruct (WalkFile Tree.env 2 _) as [[sw e]| |] eqn:E; [|discriminate H..].
  injection H as ->. exists sw.
  assert (Hdiff : DescPath f <> "empty_service.json") by discriminate.
  split; [reflexivity|]. split; [exact Hdiff|]. split; [reflexivity|]. split; [reflexivity|].
  exact (no_service_command_saves_plugin_skips Tree.env Shop.WriteFile 2 ∅ Shop.flags f []
           "empty_service.json" [] sw E Hdiff eq_refl eq_refl).
Defined.

(** ** Labels *)

Lemma rev_app_acc (s acc : string) : String.rev_app s acc = String.rev s +:+ acc.
Proof.
  unfold String.rev. revert acc. induction s as [|c s IH]; intros acc; [done|].
  cbn [String.rev_app]. rewrite IH, (IH (String c "")), append_assoc. done.
Qed.

Lemma rev_append (a b : string) : String.rev (a +:+ b) = String.rev b +:+ String.rev a.
Proof. unfold String.rev at 1. by rewrite rev_app_append, rev_app_acc. Qed.

Lemma dropPrefix_append (w r : string) : Strings.dropPrefix (w +:+ r) w = Some r.
Proof.
  induction w as [|c w IH]; [done|].
  rewrite append_cons. cbn [Strings.dropPrefix]. by rewrite Ascii.eqb_refl.
Qed.

Lemma dropPrefix_HasPrefix (s w : string) :
  Strings.HasPrefix s w = false -> Strings.dropPrefix s w = None.
Proof.
  revert s. induction w as [|c w IH]; intros s; [done|].
  destruct s as [|x s]; [done|]. cbn [Strings.HasPrefix Strings.dropPrefix].
  destruct (Ascii.eqb x c); [apply IH|done].
Qed.

(** X26. The label of a file is the file without its extension: put
    before the extension, it gives the file name back; a name that does
    not end with what the extension function returns is its own
    label. *)
Theorem getLabel_extension (env : Env) (file stem : string) :
  file = stem +:+ filepath_Ext env file ->
  getLabel env file = stem
  /\ getLabel env file +:+ filepath_Ext env file = file
  /\ (forall other,
        Strings.HasSuffix other (filepath_Ext env other) = false ->
        getLabel env other = other).
Proof.
  intros Hfile.
  assert (Hlabel : getLabel env file = stem).
  { unfold getLabel, Strings.TrimSuffix. rewrite Hfile at 1.
    by rewrite rev_append, dropPrefix_append, rev_involutive. }
  split; [exact Hlabel|]. split; [by rewrite Hlabel|].
  intros other Hno. unfold getLabel, Strings.TrimSuffix.
  by rewrite (dropPrefix_HasPrefix _ _ Hno).
Qed.

Lemma getLabel_extension_witness :
  "v1/shop.proto" = "v1/shop" +:+ filepath_Ext Tree.env "v1/shop.proto"
  /\ getLabel Tree.env "v1/shop.proto" = "v1/shop"
  /\ getLabel Tree.env "v1/shop.proto" +:+ filepath_Ext Tree.env "v1/shop.proto"
     = "v1/shop.proto"
  /\ (forall other,
        Strings.HasSuffix other (filepath_Ext Tree.env other) = false ->
        getLabel Tree.env other = other).
Proof.
  split; [reflexivity|].
  apply (getLabel_extension Tree.env "v1/shop.proto" "v1/shop"). reflexivity.
Defined.
